(** * VideoConference: the reactive core of the conference prefab

    A shallow embedding of [packages/react/src/prefabs/VideoConference.tsx]:
    the derived track lists, the auto-focus effect that pins and unpins
    screen shares, the grid / focus layout choice, and the waiting toast
    with its timeout.  React state cells ([useState], [useRef]) are fields
    of one record that is threaded through a state monad; an effect is a
    computation in that monad which runs when its dependency list changed. *)

From Stdlib Require Import List String Bool ZArith Lia.
Import ListNotations.
Local Open Scope string_scope.
Local Open Scope list_scope.

Set Implicit Arguments.

(** ** Tracks *)

(** [Track.Source] of livekit-client.  The component names only [Camera]
    and [ScreenShare]. *)
Inductive Source := Camera | Microphone | ScreenShare | ScreenShareAudio | Unknown.

Definition Source_eqb (a b : Source) : bool :=
  match a, b with
  | Camera, Camera | Microphone, Microphone | ScreenShare, ScreenShare
  | ScreenShareAudio, ScreenShareAudio | Unknown, Unknown => true
  | _, _ => false
  end.

(** The part of a track publication that the component reads:
    [publication.source] and [publication.trackSid]. *)
Record TrackPublication := mkPublication {
  pub_source : Source;
  trackSid : string
}.

(** [TrackReferenceOrPlaceholder]: a placeholder is a participant slot
    without a publication. *)
Record TrackReferenceOrPlaceholder := mkTrackRef {
  participant : string;
  publication : option TrackPublication;
  source : Source
}.

(** Modelled from the spec: [isTrackReference] of [@livekit/components-core]
    is not part of the sources at hand.  The spec has placeholders as slots
    "with no active publication" that "never count as a screen-share track",
    so the type guard holds exactly when the publication is present. *)
Definition isTrackReference (t : TrackReferenceOrPlaceholder) : bool :=
  match publication t with Some _ => true | None => false end.

(** [t.publication?.trackSid] *)
Definition optTrackSid (t : TrackReferenceOrPlaceholder) : option string :=
  option_map trackSid (publication t).

(** [tracks.filter(isTrackReference)
          .filter((track) => track.publication.source === Track.Source.ScreenShare)]
    The second callback only sees entries that passed the guard. *)
Definition isScreenSharePublication (t : TrackReferenceOrPlaceholder) : bool :=
  match publication t with
  | Some p => Source_eqb (pub_source p) ScreenShare
  | None => false
  end.

Definition screenShareTracks (tracks : list TrackReferenceOrPlaceholder)
  : list TrackReferenceOrPlaceholder :=
  filter isScreenSharePublication (filter isTrackReference tracks).

(** ** Pin context *)

Inductive PinAction :=
| set_pin (trackReference : TrackReferenceOrPlaceholder)
| clear_pin.

Definition PinState := list TrackReferenceOrPlaceholder.

(** Modelled from the spec: the reducer behind [layoutContext.pin] lives in
    the layout context, which is not part of the sources at hand.  The spec
    has the Pin State Store hold "at most one pinned track reference" driven
    by the two actions [set_pin] and [clear_pin]. *)
Definition pinReducer (s : PinState) (a : PinAction) : PinState :=
  match a with
  | set_pin t => [t]
  | clear_pin => []
  end.

(** [layoutContext.pin]: the state and an optional [dispatch]. *)
Record PinContext := mkPin {
  pin_state : PinState;
  pin_dispatch : bool   (* is [dispatch] defined? *)
}.

(** Modelled from the spec: [usePinnedTracks] is not part of the sources at
    hand; it hands out the tracks held by the Pin State Store. *)
Definition usePinnedTracks (ctx : PinContext) : list TrackReferenceOrPlaceholder :=
  pin_state ctx.

(** [usePinnedTracks(layoutContext)?.[0]] *)
Definition focusTrack (ctx : PinContext) : option TrackReferenceOrPlaceholder :=
  hd_error (usePinnedTracks ctx).

(** ** Component state *)

(** [WidgetState], as far as the component touches it. *)
Record WidgetState := mkWidget { showChat : option string }.

Inductive LogEntry :=
| LogWidget (state : WidgetState)
| LogAutoSet (newScreenShareTrack : TrackReferenceOrPlaceholder)
| LogAutoClear.

(** Dependency list of the auto-focus effect:
    [[screenShareTracks.map(ref => ref.publication.trackSid).join(),
      focusTrack?.publication?.trackSid]]. *)
Definition Deps := (string * option string)%type.

Record Component := mkComponent {
  widgetState : WidgetState;
  lastAutoFocusedScreenShareTrack : option TrackReferenceOrPlaceholder;
  waiting : option string;
  layoutContext : PinContext;
  (* the world around the component *)
  emitted : list PinAction;       (* arguments handed to [dispatch?.], oldest first *)
  debugLog : list LogEntry;       (* [log.debug] calls, oldest first *)
  clock : Z;                      (* milliseconds *)
  timeouts : list Z;              (* due times of the pending [setTimeout] callbacks *)
  focusDeps : option Deps         (* dependencies at the last run of the auto-focus effect *)
}.

Definition initial (dispatch : bool) : Component :=
  mkComponent (mkWidget None) None None (mkPin [] dispatch) [] [] 0 [] None.

(** ** A state monad over the component *)

Definition M (A : Type) : Type := Component -> A * Component.

Definition ret {A} (a : A) : M A := fun c => (a, c).
Definition bind {A B} (m : M A) (k : A -> M B) : M B :=
  fun c => let (a, c') := m c in k a c'.
Definition gets {A} (f : Component -> A) : M A := fun c => (f c, c).
Definition modify (f : Component -> Component) : M unit := fun c => (tt, f c).
Definition exec {A} (m : M A) (c : Component) : Component := snd (m c).
Definition valueOf {A} (m : M A) (c : Component) : A := fst (m c).

Declare Scope comp_scope.
Delimit Scope comp_scope with comp.
Notation "x <- m ;; k" := (bind m (fun x => k))
  (at level 61, m at next level, right associativity) : comp_scope.
Notation "m ;; k" := (bind m (fun _ => k))
  (at level 61, right associativity) : comp_scope.
Local Open Scope comp_scope.

Definition with_widgetState v c :=
  mkComponent v (lastAutoFocusedScreenShareTrack c) (waiting c) (layoutContext c)
    (emitted c) (debugLog c) (clock c) (timeouts c) (focusDeps c).
Definition with_lastAutoFocused v c :=
  mkComponent (widgetState c) v (waiting c) (layoutContext c)
    (emitted c) (debugLog c) (clock c) (timeouts c) (focusDeps c).
Definition with_waiting v c :=
  mkComponent (widgetState c) (lastAutoFocusedScreenShareTrack c) v (layoutContext c)
    (emitted c) (debugLog c) (clock c) (timeouts c) (focusDeps c).
Definition with_layoutContext v c :=
  mkComponent (widgetState c) (lastAutoFocusedScreenShareTrack c) (waiting c) v
    (emitted c) (debugLog c) (clock c) (timeouts c) (focusDeps c).
Definition with_emitted v c :=
  mkComponent (widgetState c) (lastAutoFocusedScreenShareTrack c) (waiting c)
    (layoutContext c) v (debugLog c) (clock c) (timeouts c) (focusDeps c).
Definition with_debugLog v c :=
  mkComponent (widgetState c) (lastAutoFocusedScreenShareTrack c) (waiting c)
    (layoutContext c) (emitted c) v (clock c) (timeouts c) (focusDeps c).
Definition with_clock v c :=
  mkComponent (widgetState c) (lastAutoFocusedScreenShareTrack c) (waiting c)
    (layoutContext c) (emitted c) (debugLog c) v (timeouts c) (focusDeps c).
Definition with_timeouts v c :=
  mkComponent (widgetState c) (lastAutoFocusedScreenShareTrack c) (waiting c)
    (layoutContext c) (emitted c) (debugLog c) (clock c) v (focusDeps c).
Definition with_focusDeps v c :=
  mkComponent (widgetState c) (lastAutoFocusedScreenShareTrack c) (waiting c)
    (layoutContext c) (emitted c) (debugLog c) (clock c) (timeouts c) v.

(** [log.debug(...)] *)
Definition log_debug (e : LogEntry) : M unit :=
  modify (fun c => with_debugLog (debugLog c ++ [e]) c).

(** [layoutContext.pin.dispatch?.(a)]: the action is handed to the store
    when [dispatch] is defined and dropped otherwise.  [emitted] keeps what
    the component sent in either case. *)
Definition dispatch (a : PinAction) : M unit :=
  modify (fun c =>
    let ctx := layoutContext c in
    let ctx' := if pin_dispatch ctx
                then mkPin (pinReducer (pin_state ctx) a) (pin_dispatch ctx)
                else ctx in
    with_layoutContext ctx' (with_emitted (emitted c ++ [a]) c)).

(** ** Callbacks *)

Definition widgetUpdate (state : WidgetState) : M unit :=
  log_debug (LogWidget state) ;;
  modify (with_widgetState state).

(** JavaScript truthiness of a [string | null]: [null] and the empty
    string are falsy. *)
Definition truthy (w : option string) : bool :=
  match w with
  | Some s => negb (String.eqb s "")
  | None => false
  end.

(** [Object.is] on [string | null] / [string | undefined]. *)
Definition sameValue (a b : option string) : bool :=
  match a, b with
  | Some x, Some y => String.eqb x y
  | None, None => true
  | _, _ => false
  end.

(** ** Waiting toast *)

(** The timer queue keeps the pending callbacks ordered by due time,
    first scheduled first among equals. *)
Fixpoint insertTimeout (due : Z) (q : list Z) : list Z :=
  match q with
  | [] => [due]
  | d :: q' => if (d <=? due)%Z then d :: insertTimeout due q' else due :: q
  end.

(** [setTimeout(() => { setWaiting(null); }, delay)]: every callback this
    component schedules is the same one, so a pending timeout is its due
    time. *)
Definition setTimeout (delay : Z) : M unit :=
  modify (fun c => with_timeouts (insertTimeout (clock c + delay) (timeouts c)) c).

(** The effect
    [React.useEffect(() => { if (waiting) { setTimeout(..., 3000); } }, [waiting])].
    It returns no cleanup function. *)
Definition waitingEffect : M unit :=
  w <- gets waiting ;;
  if truthy w then setTimeout 3000 else ret tt.

(** [setWaiting(v)]: a state setter.  Setting the value the cell already
    holds changes nothing; otherwise the component renders again and, its
    dependency [waiting] having changed, the effect above runs. *)
Definition setWaiting (v : option string) : M unit :=
  w <- gets waiting ;;
  if sameValue w v then ret tt
  else (modify (with_waiting v) ;; waitingEffect).

Definition setWaitingMessage (showParticipantButton : bool) (message : string) : M unit :=
  if showParticipantButton then setWaiting (Some message) else ret tt.

(** The callback of a timeout that comes due at [d]. *)
Definition timeoutCallback (d : Z) : M unit :=
  modify (fun c => with_clock (Z.max (clock c) d) c) ;;
  setWaiting None.

Fixpoint runTimeouts (due : list Z) : M unit :=
  match due with
  | [] => ret tt
  | d :: rest => timeoutCallback d ;; runTimeouts rest
  end.

Definition isDue (t d : Z) : bool := (d <=? t)%Z.

(** Time passes until the clock reads [t]: the timeouts that are due by
    then fire in queue order, each at its due time. *)
Definition advanceTo (t : Z) : M unit :=
  q <- gets timeouts ;;
  modify (with_timeouts (filter (fun d => negb (isDue t d)) q)) ;;
  runTimeouts (filter (isDue t) q) ;;
  modify (fun c => with_clock (Z.max (clock c) t) c).

Definition elapse (ms : Z) : M unit :=
  now <- gets clock ;;
  advanceTo (now + ms).

(** [{waiting ? <Toast ...>{waiting}</Toast> : <></>}] *)
Definition renderToast (w : option string) : option string :=
  if truthy w then w else None.

(** ** Auto-focus effect *)

(** [track.publication.trackSid ===
     lastAutoFocusedScreenShareTrack.current?.publication?.trackSid] *)
Definition sameSidAsLast (cur : option TrackReferenceOrPlaceholder)
    (track : TrackReferenceOrPlaceholder) : bool :=
  match publication track, cur with
  | Some p, Some last =>
      match optTrackSid last with
      | Some sid => String.eqb (trackSid p) sid
      | None => false
      end
  | _, _ => false
  end.

Definition isNull {A} (o : option A) : bool :=
  match o with None => true | Some _ => false end.

(** The body of the second [useEffect]; [shares] is the [screenShareTracks]
    of the render the effect belongs to. *)
Definition autoFocusEffect (shares : list TrackReferenceOrPlaceholder) : M unit :=
  cur <- gets lastAutoFocusedScreenShareTrack ;;
  if (0 <? List.length shares)%nat && isNull cur then
    match nth_error shares 0 with
    | Some first =>
        log_debug (LogAutoSet first) ;;
        dispatch (set_pin first) ;;
        modify (with_lastAutoFocused (Some first))
    | None => ret tt   (* not reached: the list is non-empty *)
    end
  else if negb (isNull cur) && negb (existsb (sameSidAsLast cur) shares) then
    log_debug LogAutoClear ;;
    dispatch clear_pin ;;
    modify (with_lastAutoFocused None)
  else ret tt.

(** [Array.prototype.join()] with its default separator. *)
Definition join (l : list string) : string := String.concat "," l.

(** [ref.publication.trackSid] on an entry of [screenShareTracks]. *)
Definition sidOf (ref : TrackReferenceOrPlaceholder) : string :=
  match publication ref with
  | Some p => trackSid p
  | None => ""   (* not reached: entries passed [isTrackReference] *)
  end.

(** [focusTrack?.publication?.trackSid] *)
Definition focusTrackSid (focus : option TrackReferenceOrPlaceholder) : option string :=
  match focus with Some f => optTrackSid f | None => None end.

Definition autoFocusDeps (shares : list TrackReferenceOrPlaceholder)
    (focus : option TrackReferenceOrPlaceholder) : Deps :=
  (join (map sidOf shares), focusTrackSid focus).

(** React runs an effect after the first render and after a render in
    which some dependency differs from the previous one. *)
Definition depsChanged (prev : option Deps) (next : Deps) : bool :=
  match prev with
  | None => true
  | Some (k, f) => negb (String.eqb k (fst next) && sameValue f (snd next))
  end.

(** One render with [tracks] as the result of [useTracks], followed by the
    auto-focus effect if its dependencies changed.  The effect sees the
    [screenShareTracks] and [focusTrack] of that render. *)
Definition commit (tracks : list TrackReferenceOrPlaceholder) : M unit :=
  ctx <- gets layoutContext ;;
  prev <- gets focusDeps ;;
  let shares := screenShareTracks tracks in
  let deps := autoFocusDeps shares (focusTrack ctx) in
  if depsChanged prev deps then
    modify (with_focusDeps (Some deps)) ;;
    autoFocusEffect shares
  else ret tt.

(** ** Layout *)

Inductive Layout :=
| GridLayout (tracks : list TrackReferenceOrPlaceholder)
| FocusLayoutContainer (carousel : list TrackReferenceOrPlaceholder)
                       (focus : TrackReferenceOrPlaceholder).

Record View := mkView {
  view_layout : Layout;
  view_screenShareTracks : nat;   (* [screenShareTracks.length], for the control bar *)
  view_toast : option string
}.

Section Render.

(** [isEqualTrackRef(a?, b?)] comes from [@livekit/components-core]; the
    component only relies on it being a boolean comparison of two
    possibly absent track references. *)
Variable isEqualTrackRef :
  option TrackReferenceOrPlaceholder -> option TrackReferenceOrPlaceholder -> bool.

(** [tracks.filter((track) => !isEqualTrackRef(track, focusTrack))] *)
Definition carouselTracks (tracks : list TrackReferenceOrPlaceholder)
    (focus : option TrackReferenceOrPlaceholder) : list TrackReferenceOrPlaceholder :=
  filter (fun track => negb (isEqualTrackRef (Some track) focus)) tracks.

(** [!focusTrack ? <GridLayout tracks={tracks}> :
      <FocusLayoutContainer><CarouselLayout tracks={carouselTracks}> ...
        {focusTrack && <FocusLayout track={focusTrack} />}] *)
Definition layout (ctx : PinContext) (tracks : list TrackReferenceOrPlaceholder)
  : Layout :=
  match focusTrack ctx with
  | None => GridLayout tracks
  | Some f => FocusLayoutContainer (carouselTracks tracks (focusTrack ctx)) f
  end.

(** What a render of the component shows. *)
Definition render (tracks : list TrackReferenceOrPlaceholder) : M View :=
  ctx <- gets layoutContext ;;
  w <- gets waiting ;;
  ret (mkView (layout ctx tracks)
              (List.length (screenShareTracks tracks))
              (renderToast w)).

End Render.

(** ** Sample data *)

Definition cam1 : TrackReferenceOrPlaceholder :=
  mkTrackRef "alice" (Some (mkPublication Camera "c1")) Camera.
Definition share1 : TrackReferenceOrPlaceholder :=
  mkTrackRef "bob" (Some (mkPublication ScreenShare "s1")) ScreenShare.
Definition share2 : TrackReferenceOrPlaceholder :=
  mkTrackRef "carol" (Some (mkPublication ScreenShare "s2")) ScreenShare.
Definition slot1 : TrackReferenceOrPlaceholder :=
  mkTrackRef "dave" None Camera.

(** A comparison to run the layout with: two references are equal when
    both are present and agree on participant, source and track sid. *)
Definition sameRef (a b : option TrackReferenceOrPlaceholder) : bool :=
  match a, b with
  | Some x, Some y =>
      String.eqb (participant x) (participant y)
      && Source_eqb (source x) (source y)
      && sameValue (optTrackSid x) (optTrackSid y)
  | _, _ => false
  end.

(** The state after the component mounted with a camera and a screen
    share and auto-pinned the share. *)
Definition sharing : Component := exec (commit [cam1; share1]) (initial true).

(** ** Derived notions used in the statements *)

(** The state the first branch leaves behind. *)
Definition afterSet (first : TrackReferenceOrPlaceholder) (c : Component) : Component :=
  with_lastAutoFocused (Some first)
    (exec (dispatch (set_pin first)) (exec (log_debug (LogAutoSet first)) c)).

(** The state the second branch leaves behind. *)
Definition afterClear (c : Component) : Component :=
  with_lastAutoFocused None
    (exec (dispatch clear_pin) (exec (log_debug LogAutoClear) c)).

(** The dependencies a render of [tracks] in state [c] hands to React. *)
Definition currentDeps (tracks : list TrackReferenceOrPlaceholder) (c : Component) : Deps :=
  autoFocusDeps (screenShareTracks tracks) (focusTrack (layoutContext c)).

(** The effect body has nothing to do: the ref is [null] and nobody shares
    a screen, or the track in the ref is still being shared. *)
Definition settled (tracks : list TrackReferenceOrPlaceholder) (c : Component) : Prop :=
  match lastAutoFocusedScreenShareTrack c with
  | None => screenShareTracks tracks = []
  | Some last =>
      existsb (sameSidAsLast (Some last)) (screenShareTracks tracks) = true
  end.

(** The two calls of the scenario, [ms] milliseconds after the second. *)
Definition twoMessages (ms : Z) : M unit :=
  setWaitingMessage true "A" ;;
  elapse 1000 ;;
  setWaitingMessage true "B" ;;
  elapse ms.

(** ** Side panels *)

(** [widgetState.showChat == panel], with [showChat] a string or [null]. *)
Definition showChatIs (ws : WidgetState) (panel : string) : bool :=
  match showChat ws with
  | Some s => String.eqb s panel
  | None => false
  end.

(** [style={{ display: widgetState.showChat == 'show_invite' ? 'flex' : 'none' }}]
    on [ShareLink]. *)
Definition shareLinkDisplay (ws : WidgetState) : string :=
  if showChatIs ws "show_invite" then "flex" else "none".

(** [style={{ display: widgetState.showChat == 'show_users' ? 'flex' : 'none' }}]
    on [Users]. *)
Definition usersDisplay (ws : WidgetState) : string :=
  if showChatIs ws "show_users" then "flex" else "none".

(** ** A session of the component *)

(** What can happen to a mounted component. *)
Inductive Event :=
| Rendered (tracks : list TrackReferenceOrPlaceholder)
    (* a render with this [useTracks] result, then the effects *)
| WaitingMessage (showParticipantButton : bool) (message : string)
    (* the [Users] panel calls [setWaiting] *)
| TimePasses (t : Z)
    (* the clock reaches [t] *)
| WidgetChanged (state : WidgetState)
    (* the layout context provider calls [onWidgetChange] *)
| PinWritten (ctx : PinContext).
    (* somebody else writes the pin context: a tile is pinned or unpinned
       by hand, or the provider installs its dispatch *)

Definition handle (e : Event) : M unit :=
  match e with
  | Rendered tracks => commit tracks
  | WaitingMessage flag message => setWaitingMessage flag message
  | TimePasses t => advanceTo t
  | WidgetChanged state => widgetUpdate state
  | PinWritten ctx => modify (with_layoutContext ctx)
  end.

Fixpoint run (events : list Event) : M unit :=
  match events with
  | [] => ret tt
  | e :: rest => handle e ;; run rest
  end.

(** The states a component can be in some time after it was created. *)
Definition reachable (c : Component) : Prop :=
  exists (dispatch : bool) (events : list Event),
    c = exec (run events) (initial dispatch).

(** Replaying a list of pin actions against the ref: [set_pin] is legal
    only on an empty ref and fills it, [clear_pin] only on a filled ref
    and empties it.  The result is the ref at the end, if every action was
    legal. *)
Fixpoint replay (ref : option TrackReferenceOrPlaceholder) (acts : list PinAction)
  : option (option TrackReferenceOrPlaceholder) :=
  match acts with
  | [] => Some ref
  | set_pin t :: rest =>
      match ref with
      | None => replay (Some t) rest
      | Some _ => None
      end
  | clear_pin :: rest =>
      match ref with
      | Some _ => replay None rest
      | None => None
      end
  end.

(** The cells the auto-focus effect works on, and those of the toast. *)
Definition focusCells (c : Component) :=
  (lastAutoFocusedScreenShareTrack c, layoutContext c, emitted c,
   debugLog c, focusDeps c).

Definition toastCells (c : Component) := (waiting c, clock c, timeouts c).

(** A toast that is shown has an expiry pending that is at most 3000 ms
    away. *)
Definition expiryPending (c : Component) : Prop :=
  truthy (waiting c) = true ->
  exists d, In d (timeouts c) /\ (d <= clock c + 3000)%Z.

(** An event through which no message gets in: anything but a call of
    [setWaiting] made while the participant button is enabled. *)
Definition letsNoMessageIn (e : Event) : bool :=
  match e with
  | WaitingMessage flag _ => negb flag
  | _ => true
  end.

(** ** Merging props *)

Section MergeProps.

(** The attribute records, and the merge of react-aria which the utility
    wraps.  An array element is a record or [undefined]; the merge is
    handed the elements of the array it is spread from. *)
Variable Props : Type.
Variable mergePropsReactAria : list (option Props) -> Props.

(** [prop !== undefined] *)
Definition isProp (prop : option Props) : bool :=
  match prop with Some _ => true | None => false end.

(** [mergePropsReactAria(...props.filter(isProp))]: the guard narrows the
    type of the filtered array, its elements are those [filter] kept. *)
Definition mergeProps (props : list (option Props)) : Props :=
  mergePropsReactAria (filter isProp props).

End MergeProps.

(** A longer session: a camera, a message, a screen share that is pinned,
    a manual unpin, a second share, and the first share leaving. *)
Definition session : list Event :=
  [ Rendered [cam1];
    WaitingMessage true "bob is waiting";
    Rendered [cam1; share1];
    PinWritten (mkPin [] true);
    TimePasses 1000;
    Rendered [cam1; share1; share2];
    Rendered [cam1; share2];
    Rendered [slot1; cam1; share2] ].

Definition afterSession : Component := exec (run session) (initial true).

(** A session in which the pin is removed by hand: the first share is
    pinned, unpinned by hand, a second share arrives, the first leaves. *)
Definition unpinnedSession : list Event :=
  [ Rendered [cam1];
    Rendered [cam1; share1];
    Rendered [cam1; share1];
    PinWritten (mkPin [] true);
    Rendered [cam1; share1; share2];
    Rendered [cam1; share2];
    Rendered [cam1; share2] ].

Definition unpinned : Component := exec (run unpinnedSession) (initial true).

(** An event that leaves a share with the sid of [last] in the snapshot:
    a render whose screen shares include one, or any other event. *)
Definition keepsShare (last : TrackReferenceOrPlaceholder) (e : Event) : bool :=
  match e with
  | Rendered tracks => existsb (sameSidAsLast (Some last)) (screenShareTracks tracks)
  | _ => true
  end.

(** The defined elements of an array, in order. *)
Definition definedValues {Props : Type} (props : list (option Props)) : list Props :=
  flat_map (fun prop => match prop with Some p => [p] | None => [] end) props.

(** * Properties *)

(** ** The derived screen-share list *)

Lemma screenShareTracks_filter tracks :
  screenShareTracks tracks =
  filter (fun t => isTrackReference t && isScreenSharePublication t) tracks.
Proof.
  unfold screenShareTracks.
  induction tracks as [|t tracks IH]; simpl; [reflexivity|].
  destruct (isTrackReference t); simpl; rewrite IH; reflexivity.
Qed.

Lemma screenShareTracks_In tracks t :
  In t (screenShareTracks tracks) <->
  In t tracks /\ exists p, publication t = Some p /\ pub_source p = ScreenShare.
Proof.
  rewrite screenShareTracks_filter, filter_In.
  unfold isTrackReference, isScreenSharePublication.
  split.
  - intros [Hin H]. split; [exact Hin|].
    destruct (publication t) as [p|]; [|discriminate].
    exists p. split; [reflexivity|].
    simpl in H. destruct (pub_source p); try discriminate; reflexivity.
  - intros [Hin [p [Hp Hs]]]. split; [exact Hin|].
    rewrite Hp, Hs. reflexivity.
Qed.

(** The head of the screen-share list is the first entry of the snapshot
    that carries a screen-share publication. *)
Lemma screenShareTracks_head tracks first rest :
  screenShareTracks tracks = first :: rest ->
  exists pre post,
    tracks = pre ++ first :: post /\ screenShareTracks pre = [] /\
    screenShareTracks post = rest.
Proof.
  induction tracks as [|t tracks IH]; intros H.
  - discriminate.
  - rewrite screenShareTracks_filter in H. simpl in H.
    destruct (isTrackReference t && isScreenSharePublication t) eqn:E.
    + injection H as -> Hrest.
      exists [], tracks. repeat split.
      now rewrite screenShareTracks_filter.
    + rewrite <- screenShareTracks_filter in H.
      destruct (IH H) as (pre & post & -> & Hpre & Hpost).
      exists (t :: pre), post. repeat split; [|exact Hpost].
      rewrite screenShareTracks_filter in *. simpl. now rewrite E.
Qed.

(** ** Running the auto-focus effect *)

Lemma sameSidAsLast_true last t :
  sameSidAsLast (Some last) t = true -> optTrackSid t = optTrackSid last.
Proof.
  unfold sameSidAsLast, optTrackSid.
  destruct (publication t) as [p|]; [|discriminate].
  destruct (publication last) as [q|]; simpl; [|discriminate].
  intros H. apply String.eqb_eq in H. now rewrite H.
Qed.

Lemma sameSidAsLast_self t p :
  publication t = Some p -> sameSidAsLast (Some t) t = true.
Proof.
  intros H. unfold sameSidAsLast, optTrackSid. rewrite H. simpl.
  apply String.eqb_refl.
Qed.

Lemma no_match_existsb last shares :
  (forall t, In t shares -> optTrackSid t <> optTrackSid last) ->
  existsb (sameSidAsLast (Some last)) shares = false.
Proof.
  intros H. apply not_true_is_false. intros E.
  apply existsb_exists in E. destruct E as (t & Hin & Ht).
  exact (H t Hin (sameSidAsLast_true _ _ Ht)).
Qed.

Lemma autoFocusEffect_set first rest c :
  lastAutoFocusedScreenShareTrack c = None ->
  exec (autoFocusEffect (first :: rest)) c = afterSet first c.
Proof.
  intros H. unfold autoFocusEffect, exec, bind, gets. rewrite H. reflexivity.
Qed.

Lemma autoFocusEffect_clear shares last c :
  lastAutoFocusedScreenShareTrack c = Some last ->
  existsb (sameSidAsLast (Some last)) shares = false ->
  exec (autoFocusEffect shares) c = afterClear c.
Proof.
  intros H E. unfold autoFocusEffect, exec, bind, gets. rewrite H, E.
  rewrite andb_false_r. reflexivity.
Qed.

Lemma autoFocusEffect_keep_present shares last c :
  lastAutoFocusedScreenShareTrack c = Some last ->
  existsb (sameSidAsLast (Some last)) shares = true ->
  exec (autoFocusEffect shares) c = c.
Proof.
  intros H E. unfold autoFocusEffect, exec, bind, gets. rewrite H, E.
  rewrite andb_false_r. reflexivity.
Qed.

Lemma autoFocusEffect_keep_empty c :
  lastAutoFocusedScreenShareTrack c = None ->
  exec (autoFocusEffect []) c = c.
Proof.
  intros H. unfold autoFocusEffect, exec, bind, gets. rewrite H. reflexivity.
Qed.

(** Exactly one of the three branches is taken. *)
Lemma autoFocusEffect_cases shares c :
  (exists first rest, shares = first :: rest /\
     lastAutoFocusedScreenShareTrack c = None /\
     exec (autoFocusEffect shares) c = afterSet first c) \/
  (exists last, lastAutoFocusedScreenShareTrack c = Some last /\
     existsb (sameSidAsLast (Some last)) shares = false /\
     exec (autoFocusEffect shares) c = afterClear c) \/
  (exec (autoFocusEffect shares) c = c /\
     match lastAutoFocusedScreenShareTrack c with
     | None => shares = []
     | Some last => existsb (sameSidAsLast (Some last)) shares = true
     end).
Proof.
  destruct (lastAutoFocusedScreenShareTrack c) as [last|] eqn:H.
  - destruct (existsb (sameSidAsLast (Some last)) shares) eqn:E.
    + right; right. split; [|reflexivity].
      now apply autoFocusEffect_keep_present with last.
    + right; left. exists last. repeat split; [exact E|].
      now apply autoFocusEffect_clear with last.
  - destruct shares as [|first rest].
    + right; right. split; [|reflexivity]. now apply autoFocusEffect_keep_empty.
    + left. exists first, rest. repeat split.
      now apply autoFocusEffect_set.
Qed.

Lemma afterSet_fields first c :
  emitted (afterSet first c) = emitted c ++ [set_pin first] /\
  lastAutoFocusedScreenShareTrack (afterSet first c) = Some first /\
  debugLog (afterSet first c) = debugLog c ++ [LogAutoSet first] /\
  layoutContext (afterSet first c) =
    (if pin_dispatch (layoutContext c)
     then mkPin [first] true else layoutContext c) /\
  waiting (afterSet first c) = waiting c /\
  timeouts (afterSet first c) = timeouts c /\
  focusDeps (afterSet first c) = focusDeps c.
Proof.
  unfold afterSet, exec, dispatch, log_debug, modify. simpl.
  destruct (pin_dispatch (layoutContext c)) eqn:E; repeat split; reflexivity.
Qed.

Lemma afterClear_fields c :
  emitted (afterClear c) = emitted c ++ [clear_pin] /\
  lastAutoFocusedScreenShareTrack (afterClear c) = None /\
  debugLog (afterClear c) = debugLog c ++ [LogAutoClear] /\
  layoutContext (afterClear c) =
    (if pin_dispatch (layoutContext c)
     then mkPin [] true else layoutContext c) /\
  waiting (afterClear c) = waiting c /\
  timeouts (afterClear c) = timeouts c /\
  focusDeps (afterClear c) = focusDeps c.
Proof.
  unfold afterClear, exec, dispatch, log_debug, modify. simpl.
  destruct (pin_dispatch (layoutContext c)) eqn:E; repeat split; reflexivity.
Qed.

(** ** Commits *)

Lemma sameValue_refl o : sameValue o o = true.
Proof. destruct o; simpl; [apply String.eqb_refl | reflexivity]. Qed.

Lemma depsChanged_same d : depsChanged (Some d) d = false.
Proof.
  destruct d as [k f]. simpl. now rewrite String.eqb_refl, sameValue_refl.
Qed.

Lemma commit_skip tracks c :
  depsChanged (focusDeps c) (currentDeps tracks c) = false ->
  exec (commit tracks) c = c.
Proof.
  intros H. unfold commit, exec, bind, gets. simpl.
  unfold currentDeps in H. rewrite H. reflexivity.
Qed.

Lemma commit_run tracks c :
  depsChanged (focusDeps c) (currentDeps tracks c) = true ->
  exec (commit tracks) c =
  exec (autoFocusEffect (screenShareTracks tracks))
       (with_focusDeps (Some (currentDeps tracks c)) c).
Proof.
  intros H. unfold commit, exec, bind, gets, modify. simpl.
  unfold currentDeps in H. rewrite H. unfold currentDeps.
  destruct (autoFocusEffect _ _). reflexivity.
Qed.

Lemma autoFocusEffect_focusDeps shares c :
  focusDeps (exec (autoFocusEffect shares) c) = focusDeps c.
Proof.
  destruct (autoFocusEffect_cases shares c)
    as [(first & rest & _ & _ & ->) | [(last & _ & _ & ->) | [-> _]]].
  - apply afterSet_fields.
  - apply afterClear_fields.
  - reflexivity.
Qed.

Lemma commit_same_focus tracks c :
  focusTrackSid (focusTrack (layoutContext (exec (commit tracks) c))) =
  focusTrackSid (focusTrack (layoutContext c)) ->
  exec (commit tracks) (exec (commit tracks) c) = exec (commit tracks) c.
Proof.
  intros Hsid.
  destruct (depsChanged (focusDeps c) (currentDeps tracks c)) eqn:E.
  - apply commit_skip.
    unfold currentDeps, autoFocusDeps. rewrite Hsid.
    rewrite (commit_run _ _ E), autoFocusEffect_focusDeps.
    exact (depsChanged_same (currentDeps tracks c)).
  - rewrite (commit_skip _ _ E). now apply commit_skip.
Qed.

Lemma app_one_neq {A} (l : list A) (x : A) : l ++ [x] <> l.
Proof.
  intros H. apply (f_equal (@List.length A)) in H.
  rewrite length_app in H. simpl in H. lia.
Qed.

Lemma commit_emits tracks c :
  exec (commit tracks) c = c \/
  (exists a, emitted (exec (commit tracks) c) = emitted c ++ [a]) \/
  (exec (commit tracks) c = with_focusDeps (Some (currentDeps tracks c)) c /\
   settled tracks c).
Proof.
  destruct (depsChanged (focusDeps c) (currentDeps tracks c)) eqn:E.
  - rewrite (commit_run _ _ E).
    set (c0 := with_focusDeps (Some (currentDeps tracks c)) c).
    destruct (autoFocusEffect_cases (screenShareTracks tracks) c0)
      as [(first & rest & _ & _ & ->) | [(last & _ & _ & ->) | [-> Hs]]].
    + right; left. exists (set_pin first). apply (afterSet_fields first c0).
    + right; left. exists clear_pin. apply (afterClear_fields c0).
    + right; right. split; [reflexivity | exact Hs].
  - left. now apply commit_skip.
Qed.

Lemma commit_quiet tracks c :
  emitted (exec (commit tracks) c) = emitted c ->
  exec (commit tracks) (exec (commit tracks) c) = exec (commit tracks) c.
Proof.
  intros Hq.
  destruct (commit_emits tracks c) as [H | [(a & H) | [H _]]].
  - now rewrite !H.
  - rewrite H in Hq. now apply app_one_neq in Hq.
  - apply commit_same_focus. now rewrite H.
Qed.

Lemma settled_commit tracks c :
  settled tracks c ->
  emitted (exec (commit tracks) c) = emitted c /\
  settled tracks (exec (commit tracks) c).
Proof.
  intros Hs.
  destruct (depsChanged (focusDeps c) (currentDeps tracks c)) eqn:E.
  - rewrite (commit_run _ _ E).
    set (c0 := with_focusDeps (Some (currentDeps tracks c)) c).
    assert (H0 : exec (autoFocusEffect (screenShareTracks tracks)) c0 = c0).
    { unfold settled in Hs.
      destruct (lastAutoFocusedScreenShareTrack c) as [last|] eqn:Hl.
      - now apply autoFocusEffect_keep_present with last.
      - rewrite Hs. now apply autoFocusEffect_keep_empty. }
    rewrite H0. split; [reflexivity | exact Hs].
  - rewrite (commit_skip _ _ E). now split.
Qed.

(** After a commit the component is unchanged, or settled, or its ref is
    [null] because the commit just cleared the pin. *)
Lemma commit_progress tracks c :
  let c1 := exec (commit tracks) c in
  c1 = c \/ settled tracks c1 \/
  (lastAutoFocusedScreenShareTrack c1 = None /\
   lastAutoFocusedScreenShareTrack c <> None).
Proof.
  intros c1. subst c1.
  destruct (depsChanged (focusDeps c) (currentDeps tracks c)) eqn:E.
  - rewrite (commit_run _ _ E).
    set (c0 := with_focusDeps (Some (currentDeps tracks c)) c).
    destruct (autoFocusEffect_cases (screenShareTracks tracks) c0)
      as [(first & rest & Hsh & _ & ->) | [(last & Hl & _ & ->) | [-> Hs]]].
    + right; left. unfold settled.
      destruct (afterSet_fields first c0) as (_ & -> & _).
      assert (Hin : In first (screenShareTracks tracks))
        by (rewrite Hsh; now left).
      apply screenShareTracks_In in Hin. destruct Hin as [_ (p & Hp & _)].
      rewrite Hsh. simpl. now rewrite (sameSidAsLast_self first Hp).
    + right; right. split; [apply (afterClear_fields c0)|].
      change (lastAutoFocusedScreenShareTrack c) with
        (lastAutoFocusedScreenShareTrack c0).
      rewrite Hl. discriminate.
    + right; left. exact Hs.
  - left. now apply commit_skip.
Qed.

(** ** Auto-focus: the set branch *)

(** C1, as stated, fails.  In a state the component reaches (the pinned
    share was unpinned by hand and then left while a second share stayed)
    a placeholder arrives: the snapshot has a screen share, the ref is
    [null], and yet the update dispatches nothing, because no dependency
    of the effect changed and the effect does not run. *)
Lemma snapshot_update_counterexample :
  reachable unpinned /\
  screenShareTracks [slot1; cam1; share2] = [share2] /\
  lastAutoFocusedScreenShareTrack unpinned = None /\
  emitted (exec (commit [slot1; cam1; share2]) unpinned) <>
    emitted unpinned ++ [set_pin share2] /\
  exec (commit [slot1; cam1; share2]) unpinned = unpinned.
Proof.
  split; [exists true, unpinnedSession; reflexivity|].
  split; [reflexivity|]. split; [reflexivity|].
  split; vm_compute; [discriminate | reflexivity].
Qed.

(** C1, amended.  Whenever the effect runs on a snapshot whose
    screen-share list is non-empty while
    [lastAutoFocusedScreenShareTrack] is [null], it hands exactly
    [set_pin] of the first screen share to the dispatch and records that
    track in the ref.  The first screen share is the first snapshot entry
    with a screen-share publication.  Nothing of this depends on the pin
    the layout context holds: with a dispatch present the store ends up
    holding just that track, whatever it held before.  A snapshot update
    runs the effect when a dependency (the joined sids of the screen
    shares, the sid of the focus track) changed, and then does the same;
    an update that changes no dependency leaves the component as it is. *)
Theorem autoFocus_pins_first_screen_share :
  forall (tracks : list TrackReferenceOrPlaceholder) (c : Component)
         (first : TrackReferenceOrPlaceholder)
         (rest : list TrackReferenceOrPlaceholder),
    screenShareTracks tracks = first :: rest ->
    lastAutoFocusedScreenShareTrack c = None ->
    let c' := exec (autoFocusEffect (screenShareTracks tracks)) c in
    emitted c' = emitted c ++ [set_pin first] /\
    lastAutoFocusedScreenShareTrack c' = Some first /\
    layoutContext c' =
      (if pin_dispatch (layoutContext c)
       then mkPin [first] true else layoutContext c) /\
    (exists pre post,
       tracks = pre ++ first :: post /\ screenShareTracks pre = [] /\
       isTrackReference first = true /\
       option_map pub_source (publication first) = Some ScreenShare) /\
    (depsChanged (focusDeps c) (currentDeps tracks c) = true ->
       emitted (exec (commit tracks) c) = emitted c ++ [set_pin first] /\
       lastAutoFocusedScreenShareTrack (exec (commit tracks) c) = Some first /\
       layoutContext (exec (commit tracks) c) =
         (if pin_dispatch (layoutContext c)
          then mkPin [first] true else layoutContext c)) /\
    (depsChanged (focusDeps c) (currentDeps tracks c) = false ->
       exec (commit tracks) c = c).
Proof.
  intros tracks c first rest Hss Hnull c'. subst c'.
  assert (Hin : In first (screenShareTracks tracks))
    by (rewrite Hss; now left).
  apply screenShareTracks_In in Hin. destruct Hin as [_ (p & Hp & Hs)].
  split; [|split; [|split; [|split; [|split]]]].
  - rewrite Hss, (autoFocusEffect_set first rest c Hnull).
    apply afterSet_fields.
  - rewrite Hss, (autoFocusEffect_set first rest c Hnull).
    apply afterSet_fields.
  - rewrite Hss, (autoFocusEffect_set first rest c Hnull).
    apply afterSet_fields.
  - destruct (screenShareTracks_head tracks Hss) as (pre & post & Ht & Hpre & _).
    exists pre, post. unfold isTrackReference. rewrite Hp. simpl. rewrite Hs.
    repeat split; assumption.
  - intros E. rewrite (commit_run _ _ E), Hss.
    set (c0 := with_focusDeps (Some (currentDeps tracks c)) c).
    rewrite (autoFocusEffect_set first rest c0 Hnull).
    destruct (afterSet_fields first c0) as (He & Hl & _ & Hctx & _).
    split; [exact He | split; [exact Hl | exact Hctx]].
  - intros E. now apply commit_skip.
Qed.

Lemma autoFocus_pins_first_screen_share_witness :
  (emitted (exec (autoFocusEffect (screenShareTracks [slot1; cam1; share1; share2]))
              (with_layoutContext (mkPin [cam1] true) (initial true))) =
     [set_pin share1] /\
   layoutContext (exec (autoFocusEffect (screenShareTracks [slot1; cam1; share1; share2]))
              (with_layoutContext (mkPin [cam1] true) (initial true))) =
     mkPin [share1] true /\
   emitted (exec (commit [slot1; cam1; share1; share2])
              (with_layoutContext (mkPin [cam1] true) (initial true))) =
     [set_pin share1]) /\
  exec (commit [slot1; cam1; share2]) unpinned = unpinned.
Proof.
  split.
  - destruct (@autoFocus_pins_first_screen_share
                [slot1; cam1; share1; share2]
                (with_layoutContext (mkPin [cam1] true) (initial true))
                share1 [share2] eq_refl eq_refl)
      as (He & _ & Hp & _ & Hc & _).
    split; [exact He | split; [exact Hp | exact (proj1 (Hc eq_refl))]].
  - destruct (@autoFocus_pins_first_screen_share
                [slot1; cam1; share2] unpinned share2 [] eq_refl eq_refl)
      as (_ & _ & _ & _ & _ & Hskip).
    exact (Hskip eq_refl).
Defined.

(** ** Auto-focus: the clear branch *)



(** C9.  The clear branch never looks at the pin the store holds.  When
    some other writer has pinned a track [X] and the ref still names a
    screen share that is gone from the list, the effect hands [clear_pin]
    to the dispatch all the same, and the store loses [X]. *)
Theorem autoFocus_clear_removes_foreign_pin :
  forall (tracks : list TrackReferenceOrPlaceholder) (c : Component)
         (last X : TrackReferenceOrPlaceholder),
    lastAutoFocusedScreenShareTrack c = Some last ->
    layoutContext c = mkPin [X] true ->
    (forall t, In t (screenShareTracks tracks) ->
               optTrackSid t <> optTrackSid last) ->
    let c' := exec (autoFocusEffect (screenShareTracks tracks)) c in
    emitted c' = emitted c ++ [clear_pin] /\
    focusTrack (layoutContext c) = Some X /\
    focusTrack (layoutContext c') = None /\
    lastAutoFocusedScreenShareTrack c' = None.
Proof.
  intros tracks c last X Hlast Hctx Hno c'. subst c'.
  rewrite (autoFocusEffect_clear _ c Hlast (no_match_existsb _ _ Hno)).
  destruct (afterClear_fields c) as (He & Hl & _ & Hctx' & _).
  rewrite Hctx', Hctx. simpl. repeat split; assumption.
Qed.

Lemma autoFocus_clear_removes_foreign_pin_witness :
  emitted (exec (autoFocusEffect (screenShareTracks [cam1]))
             (with_layoutContext (mkPin [cam1] true) sharing)) =
    [set_pin share1; clear_pin] /\
  focusTrack (layoutContext (with_layoutContext (mkPin [cam1] true) sharing)) =
    Some cam1 /\
  focusTrack (layoutContext (exec (autoFocusEffect (screenShareTracks [cam1]))
             (with_layoutContext (mkPin [cam1] true) sharing))) = None /\
  lastAutoFocusedScreenShareTrack
    (exec (autoFocusEffect (screenShareTracks [cam1]))
       (with_layoutContext (mkPin [cam1] true) sharing)) = None.
Proof.
  apply (@autoFocus_clear_removes_foreign_pin
           [cam1] (with_layoutContext (mkPin [cam1] true) sharing) share1 cam1
           eq_refl eq_refl).
  intros t [].
Defined.

(** ** Layout *)

Section LayoutFacts.

Variable isEqualTrackRef :
  option TrackReferenceOrPlaceholder -> option TrackReferenceOrPlaceholder -> bool.

Lemma carouselTracks_In tracks focus t :
  In t (carouselTracks isEqualTrackRef tracks focus) <->
  In t tracks /\ isEqualTrackRef (Some t) focus = false.
Proof.
  unfold carouselTracks. rewrite filter_In, negb_true_iff. reflexivity.
Qed.

(** Rendering reads the component and leaves it as it was. *)
Lemma render_pure tracks c :
  exec (render isEqualTrackRef tracks) c = c.
Proof. reflexivity. Qed.

Lemma render_layout tracks c :
  view_layout (valueOf (render isEqualTrackRef tracks) c) =
  layout isEqualTrackRef (layoutContext c) tracks.
Proof. reflexivity. Qed.

End LayoutFacts.

(** C5.  With a pinned track [P], no entry of the carousel list is equal
    to [P] in the sense of [isEqualTrackRef], whichever comparison that
    function implements; the entries that are dropped are exactly the
    snapshot entries [isEqualTrackRef] equates with [P]. *)
Theorem carousel_excludes_pinned_track :
  forall (isEqualTrackRef :
            option TrackReferenceOrPlaceholder ->
            option TrackReferenceOrPlaceholder -> bool)
         (ctx : PinContext) (tracks : list TrackReferenceOrPlaceholder)
         (P t : TrackReferenceOrPlaceholder),
    focusTrack ctx = Some P ->
    In t (carouselTracks isEqualTrackRef tracks (focusTrack ctx)) ->
    isEqualTrackRef (Some t) (Some P) = false /\ In t tracks.
Proof.
  intros isEq ctx tracks P t HP Hin.
  rewrite HP in Hin. apply carouselTracks_In in Hin. tauto.
Qed.

Lemma carousel_excludes_pinned_track_witness :
  sameRef (Some cam1) (Some share1) = false /\ In cam1 [cam1; share1; slot1].
Proof.
  apply (@carousel_excludes_pinned_track sameRef
           (mkPin [share1] true) [cam1; share1; slot1] share1 cam1 eq_refl).
  simpl. left. reflexivity.
Defined.

(** C6.  The layout is a function of the pin state and the snapshot alone.
    An empty pin state gives the grid over the whole snapshot, placeholders
    included; a pin state headed by [P] gives the focus layout on [P] with
    the snapshot minus the entries [isEqualTrackRef] equates with [P] as
    carousel.  A render yields this layout for every component state and
    changes nothing, so rendering again gives the same view. *)
Theorem layout_selector :
  forall (isEqualTrackRef :
            option TrackReferenceOrPlaceholder ->
            option TrackReferenceOrPlaceholder -> bool)
         (tracks : list TrackReferenceOrPlaceholder) (dispatch : bool)
         (P : TrackReferenceOrPlaceholder) (others : PinState) (c : Component),
    layout isEqualTrackRef (mkPin [] dispatch) tracks = GridLayout tracks /\
    layout isEqualTrackRef (mkPin (P :: others) dispatch) tracks =
      FocusLayoutContainer
        (filter (fun t => negb (isEqualTrackRef (Some t) (Some P))) tracks) P /\
    view_layout (valueOf (render isEqualTrackRef tracks) c) =
      layout isEqualTrackRef
        (mkPin (pin_state (layoutContext c)) dispatch) tracks /\
    exec (render isEqualTrackRef tracks) c = c /\
    valueOf (render isEqualTrackRef tracks)
            (exec (render isEqualTrackRef tracks) c) =
      valueOf (render isEqualTrackRef tracks) c.
Proof.
  intros isEq tracks d P others c. repeat split.
Qed.

(** ** The empty snapshot *)

(** C4, as stated, fails.  After the component auto-pinned a screen share,
    an empty snapshot makes the effect dispatch [clear_pin], and the render
    of that snapshot still shows the focus layout. *)
Lemma empty_snapshot_counterexample :
  emitted (exec (commit []) sharing) <> emitted sharing /\
  layout sameRef (layoutContext sharing) [] <> GridLayout [].
Proof.
  split; vm_compute; discriminate.
Qed.

(** C4, amended.  On the empty snapshot the effect does nothing when the
    ref is [null]; when the ref holds a track it hands [clear_pin] to the
    dispatch and resets the ref.  The layout is the grid over no tracks
    when the pin state is empty, and the focus layout on the pinned track
    with an empty carousel otherwise. *)
Theorem empty_snapshot_behaviour :
  forall (isEqualTrackRef :
            option TrackReferenceOrPlaceholder ->
            option TrackReferenceOrPlaceholder -> bool)
         (c : Component),
    let c' := exec (autoFocusEffect (screenShareTracks [])) c in
    match lastAutoFocusedScreenShareTrack c with
    | None => c' = c
    | Some _ =>
        emitted c' = emitted c ++ [clear_pin] /\
        lastAutoFocusedScreenShareTrack c' = None
    end /\
    match pin_state (layoutContext c) with
    | [] => layout isEqualTrackRef (layoutContext c) [] = GridLayout []
    | P :: _ =>
        layout isEqualTrackRef (layoutContext c) [] = FocusLayoutContainer [] P
    end.
Proof.
  intros isEq c c'. subst c'.
  change (screenShareTracks []) with (@nil TrackReferenceOrPlaceholder).
  split.
  - destruct (lastAutoFocusedScreenShareTrack c) as [last|] eqn:H.
    + rewrite (@autoFocusEffect_clear [] last c H eq_refl).
      destruct (afterClear_fields c) as (He & Hl & _). now split.
    + now apply autoFocusEffect_keep_empty.
  - unfold layout, focusTrack, usePinnedTracks.
    destruct (pin_state (layoutContext c)); reflexivity.
Qed.

(** ** Re-running the auto-focus effect *)

(** C7.  Re-running the controller on an unchanged snapshot.  Every
    commit hands at most one action to the dispatch.  If the focus track
    sid is the same after a commit as before it, committing the same
    snapshot again changes nothing; the same holds after any commit that
    dispatched nothing.  When the first commit did change the pin, a
    second commit may still dispatch, and from the third commit on nothing
    is dispatched any more. *)
Theorem autoFocus_idempotent :
  forall (tracks : list TrackReferenceOrPlaceholder) (c : Component),
    let c1 := exec (commit tracks) c in
    let c2 := exec (commit tracks) c1 in
    let c3 := exec (commit tracks) c2 in
    (exists acts, emitted c1 = emitted c ++ acts /\ (List.length acts <= 1)%nat) /\
    (focusTrackSid (focusTrack (layoutContext c1)) =
       focusTrackSid (focusTrack (layoutContext c)) -> c2 = c1) /\
    (emitted c1 = emitted c -> c2 = c1) /\
    emitted c3 = emitted c2 /\
    exec (commit tracks) c3 = c3.
Proof.
  intros tracks c c1 c2 c3.
  assert (H3 : emitted c3 = emitted c2).
  { subst c3 c2 c1.
    destruct (commit_progress tracks c) as [H | [H | [H _]]].
    - now rewrite !H.
    - apply settled_commit. now apply settled_commit.
    - destruct (commit_progress tracks (exec (commit tracks) c))
        as [H' | [H' | [_ H']]].
      + now rewrite !H'.
      + now apply settled_commit.
      + now elim H'. }
  split; [|split; [|split; [|split]]].
  - subst c1.
    destruct (commit_emits tracks c) as [H | [(a & H) | [H _]]].
    + exists []. rewrite H, app_nil_r. split; [reflexivity | simpl; lia].
    + exists [a]. split; [exact H | simpl; lia].
    + exists []. rewrite H, app_nil_r. split; [reflexivity | simpl; lia].
  - apply commit_same_focus.
  - apply commit_quiet.
  - exact H3.
  - apply commit_quiet. exact H3.
Qed.

Lemma autoFocus_idempotent_witness :
  exec (commit [cam1; share1]) (exec (commit [cam1; share1]) (initial false)) =
  exec (commit [cam1; share1]) (initial false) /\
  exec (commit [cam1]) (exec (commit [cam1]) (initial true)) =
  exec (commit [cam1]) (initial true).
Proof.
  split.
  - exact (proj1 (proj2 (autoFocus_idempotent [cam1; share1] (initial false)))
             eq_refl).
  - exact (proj1 (proj2 (proj2 (autoFocus_idempotent [cam1] (initial true))))
             eq_refl).
Defined.

(** A snapshot on which the second commit still dispatches: the ref names
    a screen share that left while another one arrived. *)
Example second_commit_may_dispatch :
  let c1 := exec (commit [cam1; share2]) sharing in
  let c2 := exec (commit [cam1; share2]) c1 in
  emitted c1 = [set_pin share1; clear_pin] /\
  emitted c2 = [set_pin share1; clear_pin; set_pin share2] /\
  emitted (exec (commit [cam1; share2]) c2) = emitted c2.
Proof. vm_compute. repeat split. Qed.

(** ** The waiting toast *)

Lemma exec_bind {A B} (m : M A) (k : A -> M B) c :
  exec (bind m k) c = exec (k (valueOf m c)) (exec m c).
Proof. unfold exec, valueOf, bind. destruct (m c). reflexivity. Qed.

Lemma exec_modify f c : exec (modify f) c = f c.
Proof. reflexivity. Qed.

Lemma insertTimeout_In x q d :
  In d (insertTimeout x q) <-> d = x \/ In d q.
Proof.
  induction q as [|e q IH]; simpl.
  - intuition.
  - destruct (e <=? x)%Z; simpl; rewrite ?IH; intuition.
Qed.

Lemma insertTimeout_length x q :
  List.length (insertTimeout x q) = S (List.length q).
Proof.
  induction q as [|e q IH]; simpl; [reflexivity|].
  destruct (e <=? x)%Z; simpl; now rewrite ?IH.
Qed.

(** What a call of the setter does to the message and to the queue. *)
Lemma setWaiting_fields v c :
  let c' := exec (setWaiting v) c in
  timeouts c' =
    (if negb (sameValue (waiting c) v) && truthy v
     then insertTimeout (clock c + 3000) (timeouts c) else timeouts c) /\
  waiting c' = (if sameValue (waiting c) v then waiting c else v) /\
  clock c' = clock c.
Proof.
  unfold setWaiting, waitingEffect, setTimeout, exec, bind, gets, modify. simpl.
  destruct (sameValue (waiting c) v); simpl; [repeat split|].
  destruct (truthy v); repeat split.
Qed.

Lemma sameValue_eq a b : sameValue a b = true -> a = b.
Proof.
  destruct a, b; simpl; try discriminate; [|reflexivity].
  intros H. apply String.eqb_eq in H. now subst.
Qed.

Lemma timeoutCallback_fields d c :
  waiting (exec (timeoutCallback d) c) = None /\
  timeouts (exec (timeoutCallback d) c) = timeouts c.
Proof.
  unfold timeoutCallback. rewrite exec_bind.
  set (c0 := exec (modify _) c).
  destruct (setWaiting_fields None c0) as (Ht & Hw & _).
  split.
  - rewrite Hw.
    destruct (sameValue (waiting c0) None) eqn:E;
      [now apply sameValue_eq | reflexivity].
  - rewrite Ht. simpl truthy. rewrite andb_false_r. reflexivity.
Qed.

Lemma runTimeouts_fields due c :
  waiting (exec (runTimeouts due) c) =
    match due with [] => waiting c | _ :: _ => None end /\
  timeouts (exec (runTimeouts due) c) = timeouts c.
Proof.
  revert c. induction due as [|d rest IH]; intros c; simpl.
  - split; reflexivity.
  - rewrite exec_bind.
    destruct (IH (exec (timeoutCallback d) c)) as [Hw Ht].
    destruct (timeoutCallback_fields d c) as [Hw0 Ht0].
    rewrite Hw, Ht, Ht0. split; [|reflexivity].
    destruct rest; [exact Hw0 | reflexivity].
Qed.

Lemma advanceTo_fields t c :
  waiting (exec (advanceTo t) c) =
    match filter (isDue t) (timeouts c) with
    | [] => waiting c
    | _ :: _ => None
    end /\
  timeouts (exec (advanceTo t) c) =
    filter (fun d => negb (isDue t d)) (timeouts c).
Proof.
  unfold advanceTo. rewrite exec_bind.
  change (valueOf (gets timeouts) c) with (timeouts c).
  change (exec (gets timeouts) c) with c.
  rewrite !exec_bind, exec_modify.
  set (c0 := exec (modify _) c).
  destruct (runTimeouts_fields (filter (isDue t) (timeouts c)) c0) as [Hw Ht].
  cbn [waiting timeouts with_clock].
  rewrite Hw, Ht. split; reflexivity.
Qed.

(** C3, as stated, fails.  The second call leaves the first expiry in the
    queue next to its own, and 2999 ms after the second call the message
    "B" is gone: the first expiry fired 2000 ms after the second call. *)
Lemma waiting_replacement_counterexample :
  timeouts (exec (twoMessages 0) (initial true)) = [3000%Z; 4000%Z] /\
  renderToast (waiting (exec (twoMessages 2999) (initial true))) <> Some "B".
Proof.
  split; vm_compute; [reflexivity | discriminate].
Qed.

(** C3, amended.  A call of the setter cancels nothing: every expiry that
    was pending stays pending, and a call that changes the message to a
    non-empty string adds one expiry 3000 ms ahead.  The first expiry that
    comes due clears whatever message is shown, so a message is cleared
    3000 ms after the call that set it at the latest.  In the scenario
    "B" is shown 1999 ms after the second call and cleared from 2000 ms
    on, which is 3000 ms after the first call. *)
Theorem waiting_expiry_is_never_cancelled :
  forall (c : Component) (message : string) (t : Z),
    let c' := exec (setWaitingMessage true message) c in
    (forall d, In d (timeouts c) -> In d (timeouts c')) /\
    (truthy (Some message) = true ->
     sameValue (waiting c) (Some message) = false ->
       waiting c' = Some message /\
       In (clock c + 3000)%Z (timeouts c') /\
       List.length (timeouts c') = S (List.length (timeouts c)) /\
       waiting (exec (advanceTo (clock c + 3000)) c') = None) /\
    ((exists d, In d (timeouts c) /\ (d <= t)%Z) ->
       waiting (exec (advanceTo t) c) = None) /\
    waiting (exec (twoMessages 1999) (initial true)) = Some "B" /\
    waiting (exec (twoMessages 2000) (initial true)) = None /\
    waiting (exec (twoMessages 3001) (initial true)) = None.
Proof.
  intros c message t c'.
  assert (Hdue : forall t0 c0,
             (exists d, In d (timeouts c0) /\ (d <= t0)%Z) ->
             waiting (exec (advanceTo t0) c0) = None).
  { intros t0 c0 (d & Hin & Hle).
    destruct (advanceTo_fields t0 c0) as [-> _].
    destruct (filter (isDue t0) (timeouts c0)) eqn:E; [|reflexivity].
    assert (Hd : In d (filter (isDue t0) (timeouts c0))).
    { apply filter_In. split; [exact Hin|]. unfold isDue. now apply Z.leb_le. }
    rewrite E in Hd. destruct Hd. }
  destruct (setWaiting_fields (Some message) c) as (Ht & Hw & _).
  change (exec (setWaiting (Some message)) c) with c' in Ht, Hw.
  split; [|split; [|split]].
  - intros d Hin. rewrite Ht.
    destruct (negb (sameValue (waiting c) (Some message)) && truthy (Some message));
      [apply insertTimeout_In; now right | exact Hin].
  - intros Htr Hch.
    assert (Hq : timeouts c' = insertTimeout (clock c + 3000) (timeouts c)).
    { rewrite Ht, Hch, Htr. reflexivity. }
    assert (Hin : In (clock c + 3000)%Z (timeouts c')).
    { rewrite Hq. apply insertTimeout_In. now left. }
    rewrite Hw, Hch. split; [reflexivity|]. split; [exact Hin|].
    split; [rewrite Hq; apply insertTimeout_length|].
    apply Hdue. exists (clock c + 3000)%Z. split; [exact Hin | lia].
  - apply Hdue.
  - vm_compute. repeat split.
Qed.

Lemma waiting_expiry_is_never_cancelled_witness :
  waiting (exec (setWaitingMessage true "B")
             (exec (setWaitingMessage true "A") (initial true))) = Some "B" /\
  List.length (timeouts (exec (setWaitingMessage true "B")
             (exec (setWaitingMessage true "A") (initial true)))) = 2%nat /\
  waiting (exec (advanceTo 3000)
             (exec (setWaitingMessage true "A") (initial true))) = None.
Proof.
  pose proof (waiting_expiry_is_never_cancelled
                (exec (setWaitingMessage true "A") (initial true)) "B" 3000)
    as (_ & H2 & H3 & _).
  destruct (H2 eq_refl eq_refl) as (Hw & _ & Hl & _).
  split; [exact Hw | split; [exact Hl |]].
  apply H3. exists 3000%Z. split; [vm_compute; now left | lia].
Defined.

(** C8.  With [showParticipantButton] false a call of [setWaitingMessage]
    leaves the whole component as it was, whatever the message: no state
    cell changes, nothing is scheduled and nothing is logged.  From the
    initial state the toast therefore stays absent. *)
Theorem setWaitingMessage_ignored_without_participant_button :
  forall (message : string) (c : Component) (dispatch : bool),
    exec (setWaitingMessage false message) c = c /\
    waiting (exec (setWaitingMessage false message) (initial dispatch)) = None /\
    debugLog (exec (setWaitingMessage false message) c) = debugLog c /\
    timeouts (exec (setWaitingMessage false message) c) = timeouts c.
Proof.
  intros message c d. repeat split.
Qed.

(** C10.  With [showParticipantButton] true a call with the empty string
    puts the empty string into [waiting].  The effect schedules no expiry
    for it, neither at the call nor while time passes, and the render
    shows no toast. *)
Theorem empty_message_is_stored_but_not_shown :
  forall (isEqualTrackRef :
            option TrackReferenceOrPlaceholder ->
            option TrackReferenceOrPlaceholder -> bool)
         (tracks : list TrackReferenceOrPlaceholder) (c : Component) (t : Z),
    let c' := exec (setWaitingMessage true "") c in
    waiting c' = Some "" /\
    timeouts c' = timeouts c /\
    renderToast (waiting c') = None /\
    view_toast (valueOf (render isEqualTrackRef tracks) c') = None /\
    timeouts (exec (advanceTo t) c') =
      filter (fun d => negb (isDue t d)) (timeouts c).
Proof.
  intros isEq tracks c t c'.
  destruct (setWaiting_fields (Some "") c) as (Ht & Hw & _).
  change (exec (setWaiting (Some "")) c) with c' in Ht, Hw.
  assert (Hw' : waiting c' = Some "").
  { rewrite Hw. destruct (sameValue (waiting c) (Some "")) eqn:E;
      [now apply sameValue_eq | reflexivity]. }
  assert (Ht' : timeouts c' = timeouts c).
  { rewrite Ht. simpl. now rewrite andb_false_r. }
  split; [exact Hw'|]. split; [exact Ht'|].
  split; [now rewrite Hw'|].
  split.
  - unfold render, valueOf, bind, gets, ret. simpl. now rewrite Hw'.
  - destruct (advanceTo_fields t c') as [_ ->]. now rewrite Ht'.
Qed.

(** ** A session from start to end *)

(** A camera alone gives the grid and no action; a screen share that
    arrives is pinned and shown in focus with the camera in the carousel;
    when it leaves the pin is cleared and the grid returns. *)
Example conference_scenario :
  let c0 := exec (commit [cam1]) (initial true) in
  let c1 := exec (commit [cam1; share1]) c0 in
  let c2 := exec (commit [cam1]) c1 in
  emitted c0 = [] /\
  layout sameRef (layoutContext c0) [cam1] = GridLayout [cam1] /\
  emitted c1 = [set_pin share1] /\
  layout sameRef (layoutContext c1) [cam1; share1] =
    FocusLayoutContainer [cam1] share1 /\
  emitted c2 = [set_pin share1; clear_pin] /\
  layout sameRef (layoutContext c2) [cam1] = GridLayout [cam1].
Proof. vm_compute. repeat split. Qed.

(** * Further properties *)

(** ** What a commit can do *)

Lemma run_step e events c :
  exec (run (e :: events)) c = exec (run events) (exec (handle e) c).
Proof. simpl. now rewrite exec_bind. Qed.

(** A property that holds when the component is created and survives
    every event holds in every reachable state. *)
Lemma reachable_invariant (P : Component -> Prop) :
  (forall dispatch, P (initial dispatch)) ->
  (forall e c, P c -> P (exec (handle e) c)) ->
  forall c, reachable c -> P c.
Proof.
  intros Hinit Hstep c (d & events & ->).
  generalize (Hinit d). generalize (initial d).
  induction events as [|e events IH]; intros c0 H0.
  - exact H0.
  - rewrite run_step. apply IH, Hstep, H0.
Qed.

(** The four ways a commit can end. *)
Lemma commit_cases tracks c :
  let c0 := with_focusDeps (Some (currentDeps tracks c)) c in
  exec (commit tracks) c = c \/
  (exists first rest,
     screenShareTracks tracks = first :: rest /\
     lastAutoFocusedScreenShareTrack c = None /\
     exec (commit tracks) c = afterSet first c0) \/
  (exists last,
     lastAutoFocusedScreenShareTrack c = Some last /\
     existsb (sameSidAsLast (Some last)) (screenShareTracks tracks) = false /\
     exec (commit tracks) c = afterClear c0) \/
  (exec (commit tracks) c = c0 /\ settled tracks c).
Proof.
  intros c0.
  destruct (depsChanged (focusDeps c) (currentDeps tracks c)) eqn:E.
  - rewrite (commit_run _ _ E). fold c0.
    destruct (autoFocusEffect_cases (screenShareTracks tracks) c0)
      as [(first & rest & Hsh & Hl & ->) | [(last & Hl & Hex & ->) | [-> Hs]]].
    + right; left. exists first, rest. now repeat split.
    + right; right; left. exists last. now repeat split.
    + right; right; right. split; [reflexivity | exact Hs].
  - left. now apply commit_skip.
Qed.

Lemma afterSet_frame first c :
  toastCells (afterSet first c) = toastCells c /\
  widgetState (afterSet first c) = widgetState c.
Proof. split; reflexivity. Qed.

Lemma afterClear_frame c :
  toastCells (afterClear c) = toastCells c /\
  widgetState (afterClear c) = widgetState c.
Proof. split; reflexivity. Qed.

(** A commit leaves the toast, the clock, the timer queue and the widget
    state alone. *)
Lemma commit_frame tracks c :
  toastCells (exec (commit tracks) c) = toastCells c /\
  widgetState (exec (commit tracks) c) = widgetState c.
Proof.
  destruct (commit_cases tracks c)
    as [-> | [(first & rest & _ & _ & ->) | [(last & _ & _ & ->) | [-> _]]]].
  - now split.
  - exact (afterSet_frame first (with_focusDeps (Some (currentDeps tracks c)) c)).
  - exact (afterClear_frame (with_focusDeps (Some (currentDeps tracks c)) c)).
  - now split.
Qed.

(** The toast operations leave the cells of the auto-focus effect and the
    widget state alone. *)
Lemma setWaiting_frame v c :
  focusCells (exec (setWaiting v) c) = focusCells c /\
  widgetState (exec (setWaiting v) c) = widgetState c.
Proof.
  unfold setWaiting, waitingEffect, setTimeout, exec, bind, gets, modify. simpl.
  destruct (sameValue (waiting c) v); simpl; [now split|].
  destruct (truthy v); now split.
Qed.

Lemma setWaitingMessage_frame flag message c :
  focusCells (exec (setWaitingMessage flag message) c) = focusCells c /\
  widgetState (exec (setWaitingMessage flag message) c) = widgetState c.
Proof.
  destruct flag; [apply setWaiting_frame | now split].
Qed.

Lemma timeoutCallback_frame d c :
  focusCells (exec (timeoutCallback d) c) = focusCells c /\
  widgetState (exec (timeoutCallback d) c) = widgetState c.
Proof.
  unfold timeoutCallback. rewrite exec_bind, exec_modify.
  destruct (setWaiting_frame None (with_clock (Z.max (clock c) d) c)) as [-> ->].
  now split.
Qed.

Lemma runTimeouts_frame due c :
  focusCells (exec (runTimeouts due) c) = focusCells c /\
  widgetState (exec (runTimeouts due) c) = widgetState c.
Proof.
  revert c. induction due as [|d rest IH]; intros c; simpl; [now split|].
  rewrite exec_bind.
  destruct (IH (exec (timeoutCallback d) c)) as [-> ->].
  apply timeoutCallback_frame.
Qed.

Lemma advanceTo_frame t c :
  focusCells (exec (advanceTo t) c) = focusCells c /\
  widgetState (exec (advanceTo t) c) = widgetState c.
Proof.
  unfold advanceTo. rewrite exec_bind.
  change (valueOf (gets timeouts) c) with (timeouts c).
  change (exec (gets timeouts) c) with c.
  rewrite !exec_bind, exec_modify.
  set (c0 := exec (modify _) c).
  destruct (runTimeouts_frame (filter (isDue t) (timeouts c)) c0) as [Hf Hw].
  split.
  - transitivity (focusCells c0); [|reflexivity].
    rewrite <- Hf. reflexivity.
  - transitivity (widgetState c0); [|reflexivity].
    rewrite <- Hw. reflexivity.
Qed.

Lemma focusCells_eq c c' :
  focusCells c' = focusCells c ->
  lastAutoFocusedScreenShareTrack c' = lastAutoFocusedScreenShareTrack c /\
  layoutContext c' = layoutContext c /\
  emitted c' = emitted c /\
  debugLog c' = debugLog c /\
  focusDeps c' = focusDeps c.
Proof. unfold focusCells. intros H. injection H. auto. Qed.

(** Events other than a render change neither the ref nor the list of
    actions the component dispatched. *)
Lemma handle_keeps_ref e c :
  (forall tracks, e <> Rendered tracks) ->
  lastAutoFocusedScreenShareTrack (exec (handle e) c) =
    lastAutoFocusedScreenShareTrack c /\
  emitted (exec (handle e) c) = emitted c.
Proof.
  intros Hne. destruct e as [tracks | flag message | t | state | ctx]; simpl.
  - now elim (Hne tracks).
  - destruct (focusCells_eq (proj1 (setWaitingMessage_frame flag message c)))
      as (H1 & _ & H2 & _). now split.
  - destruct (focusCells_eq (proj1 (advanceTo_frame t c)))
      as (H1 & _ & H2 & _). now split.
  - now split.
  - now split.
Qed.

Lemma replay_app ref xs ys :
  replay ref (xs ++ ys) =
  match replay ref xs with
  | Some ref' => replay ref' ys
  | None => None
  end.
Proof.
  revert ref. induction xs as [|a xs IH]; intros ref; simpl; [reflexivity|].
  destruct a, ref; try reflexivity; apply IH.
Qed.

Lemma afterSession_reachable : reachable afterSession.
Proof. exists true, session. reflexivity. Qed.

Lemma sharing_reachable : reachable sharing.
Proof. exists true, [Rendered [cam1; share1]]. reflexivity. Qed.

Lemma settled_commit_cells tracks c :
  settled tracks c ->
  exec (commit tracks) c = c \/
  exec (commit tracks) c = with_focusDeps (Some (currentDeps tracks c)) c.
Proof.
  intros Hs.
  destruct (commit_cases tracks c)
    as [H | [(first & rest & Hsh & Hl & _) | [(last & Hl & Hex & _) | [H _]]]].
  - now left.
  - unfold settled in Hs. rewrite Hl, Hsh in Hs. discriminate.
  - unfold settled in Hs. rewrite Hl, Hex in Hs. discriminate.
  - now right.
Qed.

Lemma share_has_publication tracks t :
  In t (screenShareTracks tracks) ->
  isTrackReference t = true /\
  option_map pub_source (publication t) = Some ScreenShare /\
  isScreenSharePublication t = true.
Proof.
  intros Hin. apply screenShareTracks_In in Hin.
  destruct Hin as [_ (p & Hp & Hs)].
  unfold isTrackReference, isScreenSharePublication.
  rewrite Hp. simpl. rewrite Hs. now repeat split.
Qed.

Lemma same_sid_existsb last shares t p :
  In t shares -> publication t = Some p ->
  optTrackSid t = optTrackSid last ->
  existsb (sameSidAsLast (Some last)) shares = true.
Proof.
  intros Hin Hp Hsid. apply existsb_exists. exists t. split; [exact Hin|].
  unfold sameSidAsLast. rewrite Hp. rewrite <- Hsid.
  unfold optTrackSid. rewrite Hp. simpl. apply String.eqb_refl.
Qed.

Lemma existsb_no_match last shares :
  (forall t, In t shares -> exists p, publication t = Some p) ->
  existsb (sameSidAsLast (Some last)) shares = false ->
  forall t, In t shares -> optTrackSid t <> optTrackSid last.
Proof.
  intros Hpub Hex t Hin Hsid.
  destruct (Hpub t Hin) as [p Hp].
  rewrite (same_sid_existsb last shares t Hin Hp Hsid) in Hex. discriminate.
Qed.

(** ** The ref and the dispatched actions *)

(** X1.  In every reachable state the actions the component dispatched so
    far alternate, [set_pin] first, and the ref follows them: it holds
    the track of the last [set_pin] as long as no [clear_pin] came after
    it, and is [null] otherwise. *)
Theorem ref_follows_own_actions :
  forall c : Component,
    reachable c ->
    replay None (emitted c) = Some (lastAutoFocusedScreenShareTrack c).
Proof.
  apply reachable_invariant.
  - intros d. reflexivity.
  - intros e c IH.
    assert (Hk : (forall tracks, e <> Rendered tracks) ->
                 replay None (emitted (exec (handle e) c)) =
                 Some (lastAutoFocusedScreenShareTrack (exec (handle e) c))).
    { intros Hne. destruct (@handle_keeps_ref e c Hne) as [-> ->]. exact IH. }
    destruct e as [tracks | flag message | t | state | ctx];
      try (apply Hk; intros ? ?; discriminate).
    clear Hk.
    simpl handle.
    destruct (commit_cases tracks c)
      as [-> | [(first & rest & _ & Hl & ->) | [(last & Hl & _ & ->) | [-> _]]]].
    + exact IH.
    + destruct (afterSet_fields first
                  (with_focusDeps (Some (currentDeps tracks c)) c))
        as (-> & -> & _).
      cbn [emitted with_focusDeps].
      rewrite replay_app, IH, Hl. reflexivity.
    + destruct (afterClear_fields
                  (with_focusDeps (Some (currentDeps tracks c)) c))
        as (-> & -> & _).
      cbn [emitted with_focusDeps].
      rewrite replay_app, IH, Hl. reflexivity.
    + exact IH.
Qed.

Lemma ref_follows_own_actions_witness :
  replay None (emitted afterSession) =
  Some (lastAutoFocusedScreenShareTrack afterSession).
Proof.
  exact (ref_follows_own_actions afterSession_reachable).
Defined.

(** X2.  In every reachable state the track in the ref, and the track of
    every [set_pin] the component ever dispatched, is a track reference
    with a screen-share publication, never a placeholder or a camera. *)
Theorem ref_holds_screen_share :
  forall (c : Component) (t : TrackReferenceOrPlaceholder),
    reachable c ->
    lastAutoFocusedScreenShareTrack c = Some t \/ In (set_pin t) (emitted c) ->
    isTrackReference t = true /\
    option_map pub_source (publication t) = Some ScreenShare.
Proof.
  intros c t Hr. revert t. revert c Hr.
  apply (reachable_invariant
           (fun c => forall t,
                lastAutoFocusedScreenShareTrack c = Some t \/
                In (set_pin t) (emitted c) ->
                isTrackReference t = true /\
                option_map pub_source (publication t) = Some ScreenShare)).
  - intros d t [H | []]. discriminate.
  - intros e c IH.
    assert (Hk : (forall tracks, e <> Rendered tracks) ->
                 forall t,
                   lastAutoFocusedScreenShareTrack (exec (handle e) c) = Some t \/
                   In (set_pin t) (emitted (exec (handle e) c)) ->
                   isTrackReference t = true /\
                   option_map pub_source (publication t) = Some ScreenShare).
    { intros Hne. destruct (@handle_keeps_ref e c Hne) as [-> ->]. exact IH. }
    destruct e as [tracks | flag message | t0 | state | ctx];
      try (apply Hk; intros ? ?; discriminate).
    clear Hk. simpl handle. intros t.
    destruct (commit_cases tracks c)
      as [-> | [(first & rest & Hsh & _ & ->) | [(last & _ & _ & ->) | [-> _]]]].
    + apply IH.
    + destruct (afterSet_fields first
                  (with_focusDeps (Some (currentDeps tracks c)) c))
        as (-> & -> & _).
      cbn [emitted with_focusDeps].
      assert (Hfirst : isTrackReference first = true /\
                       option_map pub_source (publication first) = Some ScreenShare).
      { assert (Hin : In first (screenShareTracks tracks))
          by (rewrite Hsh; now left).
        destruct (share_has_publication _ _ Hin) as (H1 & H2 & _). now split. }
      intros [H | H].
      * injection H as <-. exact Hfirst.
      * apply in_app_or in H. destruct H as [H | [H | []]].
        -- apply IH. now right.
        -- injection H as <-. exact Hfirst.
    + destruct (afterClear_fields
                  (with_focusDeps (Some (currentDeps tracks c)) c))
        as (-> & -> & _).
      cbn [emitted with_focusDeps].
      intros [H | H]; [discriminate|].
      apply in_app_or in H. destruct H as [H | [H | []]]; [|discriminate].
      apply IH. now right.
    + apply IH.
Qed.

Lemma ref_holds_screen_share_witness :
  isTrackReference share1 = true /\
  option_map pub_source (publication share1) = Some ScreenShare.
Proof.
  apply (@ref_holds_screen_share afterSession share1 afterSession_reachable).
  right. vm_compute. left. reflexivity.
Defined.

(** X3.  A commit dispatches only for the two reasons of the effect.  A
    [set_pin] goes out only when the ref was [null], and its track is the
    first screen share of the snapshot just rendered, hence an entry of
    that snapshot.  A [clear_pin] goes out only when the ref held a track
    whose sid no screen share of the snapshot carries. *)
Theorem commit_dispatches_only_for_cause :
  forall (tracks : list TrackReferenceOrPlaceholder) (c : Component)
         (a : PinAction),
    emitted (exec (commit tracks) c) = emitted c ++ [a] ->
    match a with
    | set_pin t =>
        lastAutoFocusedScreenShareTrack c = None /\
        hd_error (screenShareTracks tracks) = Some t /\
        In t tracks
    | clear_pin =>
        exists last,
          lastAutoFocusedScreenShareTrack c = Some last /\
          forall t, In t (screenShareTracks tracks) ->
                    optTrackSid t <> optTrackSid last
    end.
Proof.
  intros tracks c a H.
  destruct (commit_cases tracks c)
    as [E | [(first & rest & Hsh & Hl & E) | [(last & Hl & Hex & E) | [E _]]]];
    rewrite E in H.
  - symmetry in H. now apply app_one_neq in H.
  - destruct (afterSet_fields first
                (with_focusDeps (Some (currentDeps tracks c)) c)) as (He & _).
    rewrite He in H. cbn [emitted with_focusDeps] in H.
    apply app_inv_head in H. injection H as <-.
    split; [exact Hl|]. rewrite Hsh. split; [reflexivity|].
    assert (Hin : In first (screenShareTracks tracks)) by (rewrite Hsh; now left).
    now apply screenShareTracks_In in Hin.
  - destruct (afterClear_fields
                (with_focusDeps (Some (currentDeps tracks c)) c)) as (He & _).
    rewrite He in H. cbn [emitted with_focusDeps] in H.
    apply app_inv_head in H. injection H as <-.
    exists last. split; [exact Hl|].
    apply existsb_no_match; [|exact Hex].
    intros t Hin. apply screenShareTracks_In in Hin.
    destruct Hin as [_ (p & Hp & _)]. now exists p.
  - cbn [emitted with_focusDeps] in H.
    symmetry in H. now apply app_one_neq in H.
Qed.

Lemma commit_dispatches_only_for_cause_witness :
  lastAutoFocusedScreenShareTrack (initial true) = None /\
  hd_error (screenShareTracks [slot1; cam1; share2; share1]) = Some share2 /\
  In share2 [slot1; cam1; share2; share1].
Proof.
  apply (@commit_dispatches_only_for_cause
           [slot1; cam1; share2; share1] (initial true) (set_pin share2)).
  reflexivity.
Defined.

(** ** Pins the controller leaves alone *)

(** X4.  While the track in the ref is still among the screen shares of
    the snapshot, a commit dispatches nothing and leaves the ref and the
    pin context as they are, whatever the pin context holds: a pin removed
    or replaced by hand is not taken back, and a further screen share that
    arrives does not take the focus. *)
Theorem shared_track_keeps_pin_untouched :
  forall (tracks : list TrackReferenceOrPlaceholder) (c : Component)
         (last t : TrackReferenceOrPlaceholder) (ctx : PinContext),
    lastAutoFocusedScreenShareTrack c = Some last ->
    In t (screenShareTracks tracks) ->
    optTrackSid t = optTrackSid last ->
    let c' := exec (commit tracks) (with_layoutContext ctx c) in
    emitted c' = emitted c /\
    layoutContext c' = ctx /\
    lastAutoFocusedScreenShareTrack c' = Some last.
Proof.
  intros tracks c last t ctx Hl Hin Hsid c'. subst c'.
  assert (Hs : settled tracks (with_layoutContext ctx c)).
  { unfold settled. cbn [lastAutoFocusedScreenShareTrack with_layoutContext].
    rewrite Hl.
    pose proof Hin as Hin'. apply screenShareTracks_In in Hin'.
    destruct Hin' as [_ (p & Hp & _)].
    exact (same_sid_existsb last _ t Hin Hp Hsid). }
  destruct (@settled_commit_cells tracks _ Hs) as [-> | ->];
    cbn [emitted layoutContext lastAutoFocusedScreenShareTrack
         with_focusDeps with_layoutContext]; now repeat split.
Qed.

Lemma shared_track_keeps_pin_untouched_witness :
  emitted (exec (commit [cam1; share2; share1])
             (with_layoutContext (mkPin [cam1] true) sharing)) =
    emitted sharing /\
  layoutContext (exec (commit [cam1; share2; share1])
             (with_layoutContext (mkPin [cam1] true) sharing)) =
    mkPin [cam1] true /\
  lastAutoFocusedScreenShareTrack (exec (commit [cam1; share2; share1])
             (with_layoutContext (mkPin [cam1] true) sharing)) = Some share1.
Proof.
  apply (@shared_track_keeps_pin_untouched
           [cam1; share2; share1] sharing share1 share1 (mkPin [cam1] true)
           eq_refl).
  - vm_compute. right. left. reflexivity.
  - reflexivity.
Defined.

Lemma screenShareTracks_skip pre t post :
  isScreenSharePublication t = false ->
  screenShareTracks (pre ++ t :: post) = screenShareTracks (pre ++ post).
Proof.
  intros H. rewrite !screenShareTracks_filter, !filter_app. simpl.
  now rewrite H, andb_false_r.
Qed.

(** X5.  The effect is keyed on the sids of the screen shares and of the
    focus track.  After a commit, a render of any snapshot whose screen
    shares carry the same sids in the same order, with the focus track sid
    unchanged, changes nothing at all: cameras and placeholders that come
    and go never make the controller act. *)
Theorem commit_ignores_other_tracks :
  forall (tracks tracks' : list TrackReferenceOrPlaceholder) (c : Component),
    map sidOf (screenShareTracks tracks') = map sidOf (screenShareTracks tracks) ->
    focusTrackSid (focusTrack (layoutContext (exec (commit tracks) c))) =
      focusTrackSid (focusTrack (layoutContext c)) ->
    exec (commit tracks') (exec (commit tracks) c) = exec (commit tracks) c.
Proof.
  intros tracks tracks' c Hsids Hfocus.
  apply commit_skip.
  assert (Hd : currentDeps tracks' (exec (commit tracks) c) = currentDeps tracks c).
  { unfold currentDeps, autoFocusDeps. now rewrite Hsids, Hfocus. }
  rewrite Hd.
  destruct (depsChanged (focusDeps c) (currentDeps tracks c)) eqn:E.
  - rewrite (commit_run _ _ E), autoFocusEffect_focusDeps.
    exact (depsChanged_same (currentDeps tracks c)).
  - now rewrite (commit_skip _ _ E).
Qed.

Lemma commit_ignores_other_tracks_witness :
  exec (commit [slot1; cam1; share2]) (exec (commit [cam1; share2]) afterSession) =
  exec (commit [cam1; share2]) afterSession.
Proof.
  apply commit_ignores_other_tracks.
  - change [slot1; cam1; share2] with ([] ++ slot1 :: [cam1; share2]).
    rewrite screenShareTracks_skip; reflexivity.
  - reflexivity.
Defined.

(** While every render keeps a share with the sid of the track in the
    ref, no event makes the component dispatch or change the ref. *)
Lemma run_keeps_quiet last events c :
  lastAutoFocusedScreenShareTrack c = Some last ->
  forallb (keepsShare last) events = true ->
  emitted (exec (run events) c) = emitted c /\
  lastAutoFocusedScreenShareTrack (exec (run events) c) = Some last.
Proof.
  revert c. induction events as [|e events IH]; intros c Hl Hall.
  - now split.
  - simpl in Hall. apply andb_true_iff in Hall. destruct Hall as [He Hall].
    rewrite run_step.
    assert (Hstep : emitted (exec (handle e) c) = emitted c /\
                    lastAutoFocusedScreenShareTrack (exec (handle e) c) = Some last).
    { destruct e as [tracks | flag message | t | state | ctx].
      - simpl handle. simpl in He.
        assert (Hs : settled tracks c) by (unfold settled; now rewrite Hl).
        destruct (@settled_commit_cells tracks c Hs) as [-> | ->];
          now split.
      - destruct (@handle_keeps_ref (WaitingMessage flag message) c) as [-> ->];
          [intros ? ?; discriminate | now split].
      - destruct (@handle_keeps_ref (TimePasses t) c) as [-> ->];
          [intros ? ?; discriminate | now split].
      - destruct (@handle_keeps_ref (WidgetChanged state) c) as [-> ->];
          [intros ? ?; discriminate | now split].
      - destruct (@handle_keeps_ref (PinWritten ctx) c) as [-> ->];
          [intros ? ?; discriminate | now split]. }
    destruct Hstep as [He1 Hl1].
    destruct (IH (exec (handle e) c) Hl1 Hall) as [He2 Hl2].
    split; [now rewrite He2 | exact Hl2].
Qed.

(** X6.  An action that meets no dispatch is lost for good.  When the
    set branch runs while the pin context has no dispatch, the pin context
    stays as it was although the ref now names the screen share.  From
    then on, through any number of events (renders of any snapshots that
    still hold a share with that sid, writes to the pin context that
    bring a dispatch, messages, time) the component dispatches nothing
    and the ref keeps naming that share. *)
Theorem dropped_pin_is_not_retried :
  forall (tracks : list TrackReferenceOrPlaceholder) (c : Component)
         (first : TrackReferenceOrPlaceholder)
         (rest : list TrackReferenceOrPlaceholder) (events : list Event),
    pin_dispatch (layoutContext c) = false ->
    screenShareTracks tracks = first :: rest ->
    lastAutoFocusedScreenShareTrack c = None ->
    depsChanged (focusDeps c) (currentDeps tracks c) = true ->
    forallb (keepsShare first) events = true ->
    let c1 := exec (commit tracks) c in
    let c2 := exec (run events) c1 in
    emitted c1 = emitted c ++ [set_pin first] /\
    layoutContext c1 = layoutContext c /\
    lastAutoFocusedScreenShareTrack c1 = Some first /\
    emitted c2 = emitted c1 /\
    lastAutoFocusedScreenShareTrack c2 = Some first.
Proof.
  intros tracks c first rest events Hd Hsh Hl E Hall c1 c2.
  assert (H1 : emitted c1 = emitted c ++ [set_pin first] /\
               layoutContext c1 = layoutContext c /\
               lastAutoFocusedScreenShareTrack c1 = Some first).
  { subst c1. rewrite (commit_run _ _ E), Hsh.
    set (c0 := with_focusDeps (Some (currentDeps tracks c)) c).
    rewrite (autoFocusEffect_set first rest c0 Hl).
    destruct (afterSet_fields first c0) as (He & Hr & _ & Hctx & _).
    split; [exact He|]. split; [|exact Hr].
    rewrite Hctx. cbn [layoutContext with_focusDeps c0]. now rewrite Hd. }
  destruct H1 as (He & Hctx & Hr).
  destruct (@run_keeps_quiet first events c1 Hr Hall) as [He2 Hr2].
  subst c2. repeat split; assumption.
Qed.

Lemma dropped_pin_is_not_retried_witness :
  emitted (exec (commit [cam1; share1]) (initial false)) = [set_pin share1] /\
  layoutContext (exec (commit [cam1; share1]) (initial false)) = mkPin [] false /\
  lastAutoFocusedScreenShareTrack (exec (commit [cam1; share1]) (initial false)) =
    Some share1 /\
  emitted (exec (run [PinWritten (mkPin [] true); Rendered [cam1; share1];
                      Rendered [slot1; share2; share1]; TimePasses 500;
                      Rendered [share1]])
             (exec (commit [cam1; share1]) (initial false))) =
    emitted (exec (commit [cam1; share1]) (initial false)) /\
  lastAutoFocusedScreenShareTrack
    (exec (run [PinWritten (mkPin [] true); Rendered [cam1; share1];
                Rendered [slot1; share2; share1]; TimePasses 500;
                Rendered [share1]])
       (exec (commit [cam1; share1]) (initial false))) = Some share1.
Proof.
  exact (@dropped_pin_is_not_retried [cam1; share1] (initial false) share1 []
           [PinWritten (mkPin [] true); Rendered [cam1; share1];
            Rendered [slot1; share2; share1]; TimePasses 500; Rendered [share1]]
           eq_refl eq_refl eq_refl eq_refl eq_refl).
Defined.

(** ** Toast and auto-focus side by side *)

Lemma component_ext c c' :
  focusCells c = focusCells c' ->
  toastCells c = toastCells c' ->
  widgetState c = widgetState c' ->
  c = c'.
Proof.
  destruct c, c'. unfold focusCells, toastCells. simpl.
  intros H1 H2 H3. injection H1. injection H2. intros. subst. reflexivity.
Qed.

(** What a commit does to the cells of the effect depends on those cells
    alone. *)
Lemma commit_local tracks c c2 :
  focusCells c = focusCells c2 ->
  focusCells (exec (commit tracks) c) = focusCells (exec (commit tracks) c2).
Proof.
  intros H. destruct (focusCells_eq H) as (Hl & Hctx & He & Hd & Hf).
  assert (Hdeps : currentDeps tracks c = currentDeps tracks c2)
    by (unfold currentDeps; now rewrite Hctx).
  destruct (depsChanged (focusDeps c) (currentDeps tracks c)) eqn:E.
  - rewrite (commit_run _ _ E).
    rewrite Hf, Hdeps in E. rewrite (commit_run _ _ E), Hdeps.
    set (d := Some (currentDeps tracks c2)).
    destruct (autoFocusEffect_cases (screenShareTracks tracks) (with_focusDeps d c))
      as [(first & rest & Hsh & Hn & ->) | [(last & Hn & Hex & ->) | [-> Hs]]].
    + cbn [lastAutoFocusedScreenShareTrack with_focusDeps] in Hn.
      rewrite Hl in Hn. rewrite Hsh.
      rewrite (autoFocusEffect_set first rest (with_focusDeps d c2) Hn).
      unfold focusCells, afterSet, exec, dispatch, log_debug, modify. simpl.
      now rewrite Hctx, He, Hd.
    + cbn [lastAutoFocusedScreenShareTrack with_focusDeps] in Hn.
      rewrite Hl in Hn.
      rewrite (autoFocusEffect_clear _ (with_focusDeps d c2) Hn Hex).
      unfold focusCells, afterClear, exec, dispatch, log_debug, modify. simpl.
      now rewrite Hctx, He, Hd.
    + cbn [lastAutoFocusedScreenShareTrack with_focusDeps] in Hs.
      rewrite Hl in Hs.
      assert (E2 : exec (autoFocusEffect (screenShareTracks tracks))
                        (with_focusDeps d c2) = with_focusDeps d c2).
      { destruct (lastAutoFocusedScreenShareTrack c2) as [last|] eqn:Hl2.
        - now apply autoFocusEffect_keep_present with last.
        - rewrite Hs. now apply autoFocusEffect_keep_empty. }
      rewrite E2. unfold focusCells. simpl. now rewrite Hl, Hctx, He, Hd.
  - rewrite (commit_skip _ _ E).
    rewrite Hf, Hdeps in E. now rewrite (commit_skip _ _ E).
Qed.

Lemma runTimeouts_clock due c :
  clock (exec (runTimeouts due) c) = fold_left Z.max due (clock c).
Proof.
  revert c. induction due as [|d rest IH]; intros c; simpl; [reflexivity|].
  rewrite exec_bind, IH.
  unfold timeoutCallback. rewrite exec_bind, exec_modify.
  destruct (setWaiting_fields None (with_clock (Z.max (clock c) d) c))
    as (_ & _ & ->).
  reflexivity.
Qed.

Lemma advanceTo_clock t c :
  clock (exec (advanceTo t) c) =
  Z.max (fold_left Z.max (filter (isDue t) (timeouts c)) (clock c)) t.
Proof.
  unfold advanceTo. rewrite exec_bind.
  change (valueOf (gets timeouts) c) with (timeouts c).
  change (exec (gets timeouts) c) with c.
  rewrite !exec_bind, exec_modify.
  cbn [clock with_clock]. rewrite runTimeouts_clock. reflexivity.
Qed.

Lemma toastCells_eq c c' :
  toastCells c' = toastCells c ->
  waiting c' = waiting c /\ clock c' = clock c /\ timeouts c' = timeouts c.
Proof. unfold toastCells. intros H. injection H. auto. Qed.

Lemma setWaitingMessage_local flag message c c2 :
  toastCells c = toastCells c2 ->
  toastCells (exec (setWaitingMessage flag message) c) =
  toastCells (exec (setWaitingMessage flag message) c2).
Proof.
  intros H. destruct flag; [|exact H]. simpl.
  destruct (toastCells_eq H) as (Hw & Hc & Ht).
  destruct (setWaiting_fields (Some message) c) as (T1 & W1 & C1).
  destruct (setWaiting_fields (Some message) c2) as (T2 & W2 & C2).
  unfold toastCells. rewrite T1, W1, C1, T2, W2, C2, Hw, Hc, Ht. reflexivity.
Qed.

Lemma advanceTo_local t c c2 :
  toastCells c = toastCells c2 ->
  toastCells (exec (advanceTo t) c) = toastCells (exec (advanceTo t) c2).
Proof.
  intros H. destruct (toastCells_eq H) as (Hw & Hc & Ht).
  destruct (advanceTo_fields t c) as (W1 & T1).
  destruct (advanceTo_fields t c2) as (W2 & T2).
  unfold toastCells.
  rewrite W1, T1, W2, T2, !advanceTo_clock, Hw, Hc, Ht. reflexivity.
Qed.

Lemma commutes_with_commit (op : M unit) :
  (forall c, focusCells (exec op c) = focusCells c /\
             widgetState (exec op c) = widgetState c) ->
  (forall c c2, toastCells c = toastCells c2 ->
                toastCells (exec op c) = toastCells (exec op c2)) ->
  forall tracks c,
    exec (commit tracks) (exec op c) = exec op (exec (commit tracks) c).
Proof.
  intros Hframe Hlocal tracks c.
  destruct (Hframe c) as [Hf Hw].
  destruct (Hframe (exec (commit tracks) c)) as [Hf' Hw'].
  destruct (commit_frame tracks c) as [Ht Hws].
  destruct (commit_frame tracks (exec op c)) as [Ht' Hws'].
  apply component_ext.
  - rewrite Hf'. apply commit_local. exact Hf.
  - rewrite Ht'. apply Hlocal. now rewrite Ht.
  - now rewrite Hws', Hw, Hw', Hws.
Qed.

(** X7.  The toast and the auto-focus effect do not interfere: a message
    that is set, or time that passes, before a commit leaves the component
    in the same state as the same step taken after the commit. *)
Theorem toast_and_autofocus_commute :
  forall (tracks : list TrackReferenceOrPlaceholder) (flag : bool)
         (message : string) (t : Z) (c : Component),
    exec (commit tracks) (exec (setWaitingMessage flag message) c) =
      exec (setWaitingMessage flag message) (exec (commit tracks) c) /\
    exec (commit tracks) (exec (advanceTo t) c) =
      exec (advanceTo t) (exec (commit tracks) c).
Proof.
  intros tracks flag message t c. split.
  - apply commutes_with_commit.
    + apply setWaitingMessage_frame.
    + apply setWaitingMessage_local.
  - apply commutes_with_commit.
    + apply advanceTo_frame.
    + apply advanceTo_local.
Qed.

(** ** How long a toast stays *)

Lemma expiryPending_step e c :
  expiryPending c -> expiryPending (exec (handle e) c).
Proof.
  intros IH. destruct e as [tracks | flag message | t | state | ctx]; simpl handle.
  - destruct (toastCells_eq (proj1 (commit_frame tracks c))) as (Hw & Hc & Ht).
    unfold expiryPending. now rewrite Hw, Hc, Ht.
  - destruct flag; [|exact IH]. simpl.
    destruct (setWaiting_fields (Some message) c) as (Ht & Hw & Hc).
    unfold expiryPending. rewrite Ht, Hw, Hc.
    destruct (sameValue (waiting c) (Some message)); cbn [negb andb].
    + exact IH.
    + intros Htr. rewrite Htr.
      exists (clock c + 3000)%Z. split; [|lia].
      apply insertTimeout_In. now left.
  - destruct (advanceTo_fields t c) as (Hw & Ht).
    unfold expiryPending. rewrite Hw, Ht, advanceTo_clock.
    destruct (filter (isDue t) (timeouts c)) as [|d0 due] eqn:E.
    + intros Htr. destruct (IH Htr) as (d & Hin & Hle).
      exists d. split.
      * apply filter_In. split; [exact Hin|].
        destruct (isDue t d) eqn:Hd; [|reflexivity].
        assert (Hin' : In d (filter (isDue t) (timeouts c)))
          by (apply filter_In; now split).
        rewrite E in Hin'. destruct Hin'.
      * simpl. lia.
    + discriminate.
  - exact IH.
  - exact IH.
Qed.

(** X8.  In every reachable state a toast that is shown is gone once
    3000 ms have passed, whatever was set or expired before; the comment
    "after 2 second" next to the timeout notwithstanding. *)
Theorem toast_disappears_within_delay :
  forall (c : Component) (t : Z),
    reachable c ->
    truthy (waiting c) = true ->
    (clock c + 3000 <= t)%Z ->
    waiting (exec (advanceTo t) c) = None /\
    renderToast (waiting (exec (advanceTo t) c)) = None.
Proof.
  intros c t Hr Htr Ht.
  assert (Hp : expiryPending c).
  { revert c Hr Htr Ht. intros c Hr _ _. revert c Hr.
    apply reachable_invariant.
    - intros d. unfold expiryPending. simpl. discriminate.
    - intros e c. apply expiryPending_step. }
  destruct (Hp Htr) as (d & Hin & Hle).
  assert (Hw : waiting (exec (advanceTo t) c) = None).
  { destruct (advanceTo_fields t c) as (-> & _).
    destruct (filter (isDue t) (timeouts c)) eqn:E; [|reflexivity].
    assert (Hd : In d (filter (isDue t) (timeouts c))).
    { apply filter_In. split; [exact Hin|]. unfold isDue. apply Z.leb_le. lia. }
    rewrite E in Hd. destruct Hd. }
  now rewrite Hw.
Qed.

Lemma toast_disappears_within_delay_witness :
  waiting (exec (advanceTo 4000) afterSession) = None /\
  renderToast (waiting (exec (advanceTo 4000) afterSession)) = None.
Proof.
  apply (@toast_disappears_within_delay afterSession 4000 afterSession_reachable).
  - reflexivity.
  - vm_compute. discriminate.
Defined.

(** X10.  With the participant button enabled, a non-empty message is on
    screen right after the call, whatever was shown before, and an expiry
    for it (or for the same message set earlier) is pending. *)
Theorem toast_shows_latest_message :
  forall (isEqualTrackRef :
            option TrackReferenceOrPlaceholder ->
            option TrackReferenceOrPlaceholder -> bool)
         (tracks : list TrackReferenceOrPlaceholder)
         (message : string) (c : Component),
    message <> "" ->
    let c' := exec (setWaitingMessage true message) c in
    view_toast (valueOf (render isEqualTrackRef tracks) c') = Some message /\
    (waiting c = Some message \/ In (clock c + 3000)%Z (timeouts c')).
Proof.
  intros isEq tracks message c Hne c'. subst c'.
  assert (Htr : truthy (Some message) = true).
  { simpl. apply negb_true_iff. now apply String.eqb_neq. }
  destruct (setWaiting_fields (Some message) c) as (Ht & Hw & _).
  change (exec (setWaitingMessage true message) c)
    with (exec (setWaiting (Some message)) c).
  assert (Hw' : waiting (exec (setWaiting (Some message)) c) = Some message).
  { rewrite Hw. destruct (sameValue (waiting c) (Some message)) eqn:E;
      [now apply sameValue_eq | reflexivity]. }
  split.
  - unfold render, valueOf, bind, gets, ret. simpl.
    rewrite Hw'. unfold renderToast. now rewrite Htr.
  - destruct (sameValue (waiting c) (Some message)) eqn:E.
    + left. now apply sameValue_eq.
    + right. rewrite Ht, Htr. simpl. apply insertTimeout_In. now left.
Qed.

Lemma toast_shows_latest_message_witness :
  view_toast (valueOf (render sameRef [cam1])
                (exec (setWaitingMessage true "carol is waiting") afterSession)) =
    Some "carol is waiting" /\
  (waiting afterSession = Some "carol is waiting" \/
   In (clock afterSession + 3000)%Z
      (timeouts (exec (setWaitingMessage true "carol is waiting") afterSession))).
Proof.
  apply (@toast_shows_latest_message sameRef [cam1] "carol is waiting" afterSession).
  discriminate.
Defined.

(** ** Side panels *)

(** X11.  The invite panel and the participant panel are never displayed
    together, and both are hidden when the component is created.  A
    widget change replaces the widget state, logs once and touches nothing
    else, so of two changes the later one decides what is displayed. *)
Theorem side_panels_exclusive :
  forall (ws s1 s2 : WidgetState) (dispatch : bool) (c : Component),
    (shareLinkDisplay ws = "none" \/ usersDisplay ws = "none") /\
    shareLinkDisplay (widgetState (initial dispatch)) = "none" /\
    usersDisplay (widgetState (initial dispatch)) = "none" /\
    widgetState (exec (widgetUpdate s2) (exec (widgetUpdate s1) c)) = s2 /\
    debugLog (exec (widgetUpdate s1) c) = debugLog c ++ [LogWidget s1] /\
    toastCells (exec (widgetUpdate s1) c) = toastCells c /\
    emitted (exec (widgetUpdate s1) c) = emitted c /\
    layoutContext (exec (widgetUpdate s1) c) = layoutContext c /\
    lastAutoFocusedScreenShareTrack (exec (widgetUpdate s1) c) =
      lastAutoFocusedScreenShareTrack c.
Proof.
  intros ws s1 s2 d c. split; [|repeat split].
  unfold shareLinkDisplay, usersDisplay, showChatIs.
  destruct (showChat ws) as [s|]; [|now left].
  destruct (String.eqb s "show_invite") eqn:E; [|now left].
  apply String.eqb_eq in E. subst s. now right.
Qed.

(** ** Carousel *)

(** X12.  The carousel never has more entries than the snapshot, and it is
    the whole snapshot exactly when [isEqualTrackRef] equates none of its
    entries with the focus track, as it happens when the pinned track has
    left the snapshot. *)
Theorem carousel_is_whole_snapshot_iff_no_track_matches :
  forall (isEqualTrackRef :
            option TrackReferenceOrPlaceholder ->
            option TrackReferenceOrPlaceholder -> bool)
         (tracks : list TrackReferenceOrPlaceholder)
         (focus : option TrackReferenceOrPlaceholder),
    (List.length (carouselTracks isEqualTrackRef tracks focus) <=
       List.length tracks)%nat /\
    (carouselTracks isEqualTrackRef tracks focus = tracks <->
     forall t, In t tracks -> isEqualTrackRef (Some t) focus = false).
Proof.
  intros isEq tracks focus. unfold carouselTracks.
  set (keep := fun track => negb (isEq (Some track) focus)).
  assert (Hlen : forall l, (List.length (filter keep l) <= List.length l)%nat).
  { induction l as [|a l IH]; simpl; [lia|]. destruct (keep a); simpl; lia. }
  split; [apply Hlen|]. split.
  - intros H t Hin. rewrite <- H in Hin. apply filter_In in Hin.
    destruct Hin as [_ Hk]. unfold keep in Hk. now apply negb_true_iff.
  - induction tracks as [|a l IH]; intros H; simpl; [reflexivity|].
    assert (Ha : keep a = true).
    { unfold keep. apply negb_true_iff. apply H. now left. }
    rewrite Ha. f_equal. apply IH. intros t Hin. apply H. now right.
Qed.

Lemma carousel_is_whole_snapshot_iff_no_track_matches_witness :
  carouselTracks sameRef [slot1; cam1] (Some share1) = [slot1; cam1].
Proof.
  apply (proj2 (@carousel_is_whole_snapshot_iff_no_track_matches
                  sameRef [slot1; cam1] (Some share1))).
  intros t [<- | [<- | []]]; reflexivity.
Defined.

(** ** Merging props *)

Lemma filter_isProp_defined {Props : Type} (props : list (option Props)) :
  filter (@isProp Props) props = map Some (definedValues props).
Proof.
  induction props as [|[p|] props IH]; simpl; [reflexivity | | exact IH].
  now rewrite IH.
Qed.

(** X13.  [mergeProps] hands to the merge of react-aria exactly the
    defined elements of its argument list, in their order, and no
    [undefined]: an [undefined] anywhere in the list makes no difference,
    and a call with only [undefined] arguments is a merge of nothing. *)
Theorem mergeProps_drops_undefined :
  forall (Props : Type) (mergePropsReactAria : list (option Props) -> Props)
         (props xs ys : list (option Props)) (n : nat),
    mergeProps mergePropsReactAria props =
      mergePropsReactAria (map Some (definedValues props)) /\
    mergeProps mergePropsReactAria (xs ++ None :: ys) =
      mergeProps mergePropsReactAria (xs ++ ys) /\
    mergeProps mergePropsReactAria (repeat None n) = mergePropsReactAria [].
Proof.
  intros Props merge props xs ys n. unfold mergeProps. repeat split.
  - now rewrite filter_isProp_defined.
  - now rewrite !filter_app.
  - f_equal. induction n as [|n IH]; simpl; [reflexivity | exact IH].
Qed.

(** ** A session without the participant button *)

(** X14.  As long as the participant button is disabled at every call of
    [setWaiting], the component never holds a message, never schedules a
    timeout and never shows a toast, whatever else happens to it. *)
Theorem no_toast_without_participant_button :
  forall (isEqualTrackRef :
            option TrackReferenceOrPlaceholder ->
            option TrackReferenceOrPlaceholder -> bool)
         (tracks : list TrackReferenceOrPlaceholder)
         (events : list Event) (dispatch : bool),
    forallb letsNoMessageIn events = true ->
    let c := exec (run events) (initial dispatch) in
    waiting c = None /\
    timeouts c = [] /\
    view_toast (valueOf (render isEqualTrackRef tracks) c) = None.
Proof.
  intros isEq tracks events d Hall c.
  assert (H : waiting c = None /\ timeouts c = []).
  { subst c.
    assert (H0 : waiting (initial d) = None /\ timeouts (initial d) = [])
      by (split; reflexivity).
    revert H0. generalize (initial d).
    induction events as [|e events IH]; intros c0 H0; [exact H0|].
    simpl in Hall. apply andb_true_iff in Hall. destruct Hall as [He Hall].
    rewrite run_step. apply (IH Hall).
    destruct H0 as [Hw Ht].
    destruct e as [tr | flag message | t | state | ctx]; simpl handle.
    - destruct (toastCells_eq (proj1 (commit_frame tr c0))) as (-> & _ & ->).
      now split.
    - destruct flag; [discriminate|]. now split.
    - destruct (advanceTo_fields t c0) as (-> & ->).
      rewrite Ht. simpl. now split.
    - now split.
    - now split. }
  destruct H as [Hw Ht]. repeat split; try assumption.
  unfold render, valueOf, bind, gets, ret. simpl. now rewrite Hw.
Qed.

Lemma no_toast_without_participant_button_witness :
  waiting (exec (run [Rendered [cam1; share1]; WaitingMessage false "bob is waiting";
                      TimePasses 5000; WidgetChanged (mkWidget (Some "show_users"))])
             (initial true)) = None /\
  timeouts (exec (run [Rendered [cam1; share1]; WaitingMessage false "bob is waiting";
                       TimePasses 5000; WidgetChanged (mkWidget (Some "show_users"))])
              (initial true)) = [] /\
  view_toast (valueOf (render sameRef [cam1; share1])
     (exec (run [Rendered [cam1; share1]; WaitingMessage false "bob is waiting";
                 TimePasses 5000; WidgetChanged (mkWidget (Some "show_users"))])
        (initial true))) = None.
Proof.
  exact (@no_toast_without_participant_button sameRef [cam1; share1]
           [Rendered [cam1; share1]; WaitingMessage false "bob is waiting";
            TimePasses 5000; WidgetChanged (mkWidget (Some "show_users"))]
           true eq_refl).
Defined.

(** ** When the pinned share leaves and another one is there *)

Lemma commit_clear_fields tracks c last :
  lastAutoFocusedScreenShareTrack c = Some last ->
  (forall t, In t (screenShareTracks tracks) ->
             optTrackSid t <> optTrackSid last) ->
  depsChanged (focusDeps c) (currentDeps tracks c) = true ->
  let c1 := exec (commit tracks) c in
  emitted c1 = emitted c ++ [clear_pin] /\
  lastAutoFocusedScreenShareTrack c1 = None /\
  layoutContext c1 =
    (if pin_dispatch (layoutContext c) then mkPin [] true else layoutContext c) /\
  focusDeps c1 = Some (currentDeps tracks c).
Proof.
  intros Hl Hno E c1. subst c1.
  rewrite (commit_run _ _ E).
  set (c0 := with_focusDeps (Some (currentDeps tracks c)) c).
  rewrite (autoFocusEffect_clear _ c0 Hl (no_match_existsb _ _ Hno)).
  destruct (afterClear_fields c0) as (He & Hr & _ & Hctx & _ & _ & Hf).
  repeat split; assumption.
Qed.

(** X15.  The focus moves on.  When the share in the ref has left, another
    share is in the snapshot, and a track with a sid is pinned through a
    working dispatch, two commits in a row first clear the pin and then
    pin the first remaining share. *)
Theorem focus_moves_to_remaining_share :
  forall (tracks : list TrackReferenceOrPlaceholder) (c : Component)
         (last first : TrackReferenceOrPlaceholder)
         (rest : list TrackReferenceOrPlaceholder) (sid : string),
    lastAutoFocusedScreenShareTrack c = Some last ->
    screenShareTracks tracks = first :: rest ->
    (forall t, In t (screenShareTracks tracks) ->
               optTrackSid t <> optTrackSid last) ->
    pin_dispatch (layoutContext c) = true ->
    focusTrackSid (focusTrack (layoutContext c)) = Some sid ->
    depsChanged (focusDeps c) (currentDeps tracks c) = true ->
    let c2 := exec (commit tracks) (exec (commit tracks) c) in
    emitted c2 = emitted c ++ [clear_pin; set_pin first] /\
    layoutContext c2 = mkPin [first] true /\
    lastAutoFocusedScreenShareTrack c2 = Some first.
Proof.
  intros tracks c last first rest sid Hl Hsh Hno Hd Hsid E c2. subst c2.
  destruct (commit_clear_fields tracks c Hl Hno E) as (He & Hr & Hctx & Hf).
  rewrite Hd in Hctx.
  set (c1 := exec (commit tracks) c) in *.
  assert (E1 : depsChanged (focusDeps c1) (currentDeps tracks c1) = true).
  { rewrite Hf. unfold currentDeps, autoFocusDeps. rewrite Hctx, Hsid.
    simpl. now rewrite andb_false_r. }
  rewrite (commit_run _ _ E1), Hsh.
  set (c0 := with_focusDeps (Some (currentDeps tracks c1)) c1).
  rewrite (autoFocusEffect_set first rest c0 Hr).
  destruct (afterSet_fields first c0) as (He' & Hr' & _ & Hctx' & _).
  rewrite He', Hr', Hctx'. cbn [emitted layoutContext with_focusDeps c0].
  rewrite He, Hctx, <- app_assoc. simpl. repeat split.
Qed.

Lemma focus_moves_to_remaining_share_witness :
  emitted (exec (commit [cam1; share2]) (exec (commit [cam1; share2]) sharing)) =
    [set_pin share1; clear_pin; set_pin share2] /\
  layoutContext (exec (commit [cam1; share2]) (exec (commit [cam1; share2]) sharing)) =
    mkPin [share2] true /\
  lastAutoFocusedScreenShareTrack
    (exec (commit [cam1; share2]) (exec (commit [cam1; share2]) sharing)) =
    Some share2.
Proof.
  apply (@focus_moves_to_remaining_share
           [cam1; share2] sharing share1 share2 [] "s1" eq_refl eq_refl).
  - intros t [<- | []]. discriminate.
  - reflexivity.
  - reflexivity.
  - reflexivity.
Defined.

(** X16.  The focus does not move on when nothing with a sid is pinned,
    for instance after the pin was removed by hand.  The share in the ref
    has left and another share is in the snapshot: the commit dispatches
    [clear_pin] and empties the ref, and since that changes no
    dependency, committing the snapshot again does nothing.  The remaining
    share stays unpinned. *)
Theorem unpinned_share_is_not_taken_up :
  forall (tracks : list TrackReferenceOrPlaceholder) (c : Component)
         (last : TrackReferenceOrPlaceholder),
    lastAutoFocusedScreenShareTrack c = Some last ->
    (forall t, In t (screenShareTracks tracks) ->
               optTrackSid t <> optTrackSid last) ->
    focusTrackSid (focusTrack (layoutContext c)) = None ->
    depsChanged (focusDeps c) (currentDeps tracks c) = true ->
    let c1 := exec (commit tracks) c in
    emitted c1 = emitted c ++ [clear_pin] /\
    lastAutoFocusedScreenShareTrack c1 = None /\
    exec (commit tracks) c1 = c1.
Proof.
  intros tracks c last Hl Hno Hsid E c1. subst c1.
  destruct (commit_clear_fields tracks c Hl Hno E) as (He & Hr & Hctx & _).
  split; [exact He|]. split; [exact Hr|].
  apply commit_same_focus. rewrite Hctx, Hsid.
  destruct (pin_dispatch (layoutContext c)); [reflexivity | exact Hsid].
Qed.

Lemma unpinned_share_is_not_taken_up_witness :
  emitted (exec (commit [cam1; share2])
             (with_layoutContext (mkPin [] true) sharing)) =
    [set_pin share1; clear_pin] /\
  lastAutoFocusedScreenShareTrack
    (exec (commit [cam1; share2])
       (with_layoutContext (mkPin [] true) sharing)) = None /\
  exec (commit [cam1; share2])
    (exec (commit [cam1; share2]) (with_layoutContext (mkPin [] true) sharing)) =
  exec (commit [cam1; share2]) (with_layoutContext (mkPin [] true) sharing).
Proof.
  apply (@unpinned_share_is_not_taken_up
           [cam1; share2] (with_layoutContext (mkPin [] true) sharing) share1
           eq_refl).
  - intros t [<- | []]. discriminate.
  - reflexivity.
  - reflexivity.
Defined.
